(** * VideoAudioTuner: the real-time DSP core of [volume_tuner.py]

    A shallow embedding of the audio engine of [src/volume_tuner.py]:
    the RBJ peaking [Biquad], the five-band equaliser, the hysteresis
    gate / expander, the decode producer [FFmpegPCMReader.run] and the
    lifecycle and callback of [AudioEngine].

    Modelling conventions.
    - Python floats and NumPy float32 samples are real numbers: every
      arithmetic operation is exact.  [pow(10.0, x)] is [Rpower 10 x],
      [math.log10 x] is [ln x / ln 10], [abs] is [Rabs], [max] is [Rmax].
      A property that rests on an identity or a bound between computed
      values is therefore a property of exact arithmetic, and says so.
    - The two blends of the gate, the envelope follower and the
      smoothing of the gain, are given a second time in IEEE 754
      arithmetic ([env_update_f32], [env_update_f64], [gain_smooth_f64]),
      to settle what rounding does to such a property.
    - A Python exception is a value [Raises e] of the type [outcome];
      a division whose divisor is not a literal goes through [pydiv],
      which raises [ZeroDivisionError] on a zero divisor, as float
      division does in Python.
    - Mutable objects are records; a method takes the object and gives
      back the updated one.
    - [queue.Queue] is the list of its pending items, oldest first.  A
      [get] with a timeout on an empty queue, with no producer running
      meanwhile, waits for the whole timeout and raises [queue.Empty]. *)

From Stdlib Require Import Reals Lra Lia ZArith List.
From Stdlib Require Import Strings.String Strings.Byte.
From Stdlib Require SpecFloat.
From stdpp Require Import base list gmap strings pretty.
From Equations Require Import Equations.
Import ListNotations.

Set Implicit Arguments.
Open Scope R_scope.

(** ** Exceptions *)

Inductive exn : Type :=
| ZeroDivisionError
| IndexError
| ValueError.

Inductive outcome (A : Type) : Type :=
| Returns (a : A)
| Raises (e : exn).

Arguments Returns {A} a.
Arguments Raises {A} e.

#[global] Instance outcome_ret : MRet outcome := fun A a => Returns a.

#[global] Instance outcome_bind : MBind outcome := fun A B k c =>
  match c with
  | Returns a => k a
  | Raises e => Raises e
  end.

(** Python's [a / b] on floats. *)
Definition pydiv (a b : R) : outcome R :=
  if Req_dec_T b 0 then Raises ZeroDivisionError else Returns (a / b).

(** ** Audio engine constants *)

Definition APP_SR : R := 48000.
Definition BLOCK : nat := 1024.

(* The block size is kept folded: unary 1024 is not to be unfolded by
   simplification. *)
#[global] Opaque BLOCK.

Definition db_to_gain (db : R) : R := Rpower 10 (db / 20).

Definition log10 (x : R) : R := ln x / ln 10.

(** ** Biquad (RBJ peaking) *)

Record Biquad : Type := mkBiquad {
  b0 : R; b1 : R; b2 : R; a1 : R; a2 : R;
  z1 : R; z2 : R
}.

(** [Biquad.__init__] *)
Definition Biquad_init : Biquad := mkBiquad 1 0 0 0 0 0 0.

(** [Biquad.set_peaking_eq].  The five assignments to [self] come after
    the first division by [a0], so a raise leaves [self] as it was. *)
Definition set_peaking_eq (self : Biquad) (fs f0 Q gain_db : R) : outcome Biquad :=
  let A := Rpower 10 (gain_db / 40) in
  w0 ← pydiv (2 * PI * f0) fs;
  alpha ← pydiv (sin w0) (2 * Q);
  let cosw := cos w0 in
  let b0' := 1 + alpha * A in
  let b1' := -2 * cosw in
  let b2' := 1 - alpha * A in
  aA ← pydiv alpha A;
  let a0' := 1 + aA in
  let a1' := -2 * cosw in
  let a2' := 1 - aA in
  nb0 ← pydiv b0' a0';
  nb1 ← pydiv b1' a0';
  nb2 ← pydiv b2' a0';
  na1 ← pydiv a1' a0';
  na2 ← pydiv a2' a0';
  Returns (mkBiquad nb0 nb1 nb2 na1 na2 (z1 self) (z2 self)).

(** The loop of [Biquad.process_inplace]: the running state [(z1, z2)]
    and the samples still to be filtered. *)
Fixpoint biquad_loop (cb0 cb1 cb2 ca1 ca2 : R) (s1 s2 : R) (x : list R)
  : R * R * list R :=
  match x with
  | [] => (s1, s2, [])
  | xi :: rest =>
      let w := xi - ca1 * s1 - ca2 * s2 in
      let y := cb0 * w + cb1 * s1 + cb2 * s2 in
      let '(s1', s2', ys) := biquad_loop cb0 cb1 cb2 ca1 ca2 w s1 rest in
      (s1', s2', y :: ys)
  end.

(** [Biquad.process_inplace]: the filter with its state advanced, and
    the block after the in-place update. *)
Definition process_inplace (self : Biquad) (x : list R) : Biquad * list R :=
  let '(s1, s2, ys) :=
    biquad_loop (b0 self) (b1 self) (b2 self) (a1 self) (a2 self)
                (z1 self) (z2 self) x in
  (mkBiquad (b0 self) (b1 self) (b2 self) (a1 self) (a2 self) s1 s2, ys).

(** ** The stream buffer and the decode producer *)

(** What travels through [AudioEngine.q]: a frame of raw bytes, the
    tuple [("__ERROR__", msg)], or [None]. *)
Inductive item : Type :=
| Frame (b : list byte)
| ErrorItem (msg : string)
| EndOfStream.

(** The inner [while len(leftover) >= BLOCK * 4] loop of
    [FFmpegPCMReader.run]: the frames it puts, in order, and what is
    left over. *)
Equations? split_frames (leftover : list byte) : list (list byte) * list byte
  by wf (length leftover) lt :=
  split_frames leftover with le_lt_dec (BLOCK * 4) (length leftover) := {
    | left _ =>
        (take (BLOCK * 4) leftover :: fst (split_frames (drop (BLOCK * 4) leftover)),
         snd (split_frames (drop (BLOCK * 4) leftover)))
    | right _ => ([], leftover) }.
Proof.
  all: rewrite length_drop;
    assert (0 < BLOCK)%nat
      by (with_strategy transparent [BLOCK] (unfold BLOCK; lia));
    lia.
Qed.

(** What one turn of the outer loop meets: the pause flag set, a
    [read] that returns a chunk (empty at end of file), or a [read]
    that raises.  The loop also ends when [stop_event] is set, which is
    the end of the list. *)
Inductive reader_event : Type :=
| PausedTick
| Read (chunk : list byte)
| ReadFails.

(** The frames put by the outer loop of [FFmpegPCMReader.run]. *)
Fixpoint reader_loop (evs : list reader_event) (leftover : list byte) : list item :=
  match evs with
  | [] => []
  | PausedTick :: evs' => reader_loop evs' leftover
  | Read chunk :: evs' =>
      match chunk with
      | [] => []
      | _ :: _ =>
          let r := split_frames (leftover ++ chunk) in
          map Frame (fst r) ++ reader_loop evs' (snd r)
      end
  | ReadFails :: _ => []
  end.

(** [FFmpegPCMReader.run]: everything the producer puts into the queue.
    [popen_error] is the message of the exception of [subprocess.Popen],
    if it raises. *)
Definition run (popen_error : option string) (evs : list reader_event) : list item :=
  match popen_error with
  | Some msg => [ErrorItem msg]
  | None => reader_loop evs [] ++ [EndOfStream]
  end.

(** ** Audio engine *)

Record band : Type := mkBand { freq : R; Q : R; gain : R }.

Inductive mode : Type := Gate | Expander.

Record OutputStream : Type := mkOutputStream {
  samplerate : R;
  channels : nat;
  blocksize : nat
}.

Record AudioEngine : Type := mkAudioEngine {
  q : list item;
  stream : option OutputStream;
  stop_event : bool;
  paused_flag : bool;
  master_gain : R;
  eq_points : list band;
  eq_filters : list Biquad;
  gate_enabled : bool;
  gate_mode : mode;
  open_thr_db : R;
  close_thr_db : R;
  floor_db : R;
  expander_ratio : R;
  attack_open_ms : R;
  release_close_ms : R;
  env : R;
  current_gain : R;
  attack_open : R;
  release_close : R
}.

(** Attribute assignments [self.f = v]. *)

Definition with_q (self : AudioEngine) (v : list item) : AudioEngine :=
  mkAudioEngine v (stream self) (stop_event self) (paused_flag self)
    (master_gain self) (eq_points self) (eq_filters self)
    (gate_enabled self) (gate_mode self) (open_thr_db self)
    (close_thr_db self) (floor_db self) (expander_ratio self)
    (attack_open_ms self) (release_close_ms self) (env self)
    (current_gain self) (attack_open self) (release_close self).

Definition with_stream (self : AudioEngine) (v : option OutputStream) : AudioEngine :=
  mkAudioEngine (q self) v (stop_event self) (paused_flag self)
    (master_gain self) (eq_points self) (eq_filters self)
    (gate_enabled self) (gate_mode self) (open_thr_db self)
    (close_thr_db self) (floor_db self) (expander_ratio self)
    (attack_open_ms self) (release_close_ms self) (env self)
    (current_gain self) (attack_open self) (release_close self).

Definition with_stop_event (self : AudioEngine) (v : bool) : AudioEngine :=
  mkAudioEngine (q self) (stream self) v (paused_flag self)
    (master_gain self) (eq_points self) (eq_filters self)
    (gate_enabled self) (gate_mode self) (open_thr_db self)
    (close_thr_db self) (floor_db self) (expander_ratio self)
    (attack_open_ms self) (release_close_ms self) (env self)
    (current_gain self) (attack_open self) (release_close self).

Definition with_paused_flag (self : AudioEngine) (v : bool) : AudioEngine :=
  mkAudioEngine (q self) (stream self) (stop_event self) v
    (master_gain self) (eq_points self) (eq_filters self)
    (gate_enabled self) (gate_mode self) (open_thr_db self)
    (close_thr_db self) (floor_db self) (expander_ratio self)
    (attack_open_ms self) (release_close_ms self) (env self)
    (current_gain self) (attack_open self) (release_close self).

Definition with_master_gain (self : AudioEngine) (v : R) : AudioEngine :=
  mkAudioEngine (q self) (stream self) (stop_event self) (paused_flag self)
    v (eq_points self) (eq_filters self) (gate_enabled self)
    (gate_mode self) (open_thr_db self) (close_thr_db self) (floor_db self)
    (expander_ratio self) (attack_open_ms self) (release_close_ms self)
    (env self) (current_gain self) (attack_open self) (release_close self).

Definition with_eq_points (self : AudioEngine) (v : list band) : AudioEngine :=
  mkAudioEngine (q self) (stream self) (stop_event self) (paused_flag self)
    (master_gain self) v (eq_filters self) (gate_enabled self)
    (gate_mode self) (open_thr_db self) (close_thr_db self) (floor_db self)
    (expander_ratio self) (attack_open_ms self) (release_close_ms self)
    (env self) (current_gain self) (attack_open self) (release_close self).

Definition with_eq_filters (self : AudioEngine) (v : list Biquad) : AudioEngine :=
  mkAudioEngine (q self) (stream self) (stop_event self) (paused_flag self)
    (master_gain self) (eq_points self) v (gate_enabled self)
    (gate_mode self) (open_thr_db self) (close_thr_db self) (floor_db self)
    (expander_ratio self) (attack_open_ms self) (release_close_ms self)
    (env self) (current_gain self) (attack_open self) (release_close self).

Definition with_gate_enabled (self : AudioEngine) (v : bool) : AudioEngine :=
  mkAudioEngine (q self) (stream self) (stop_event self) (paused_flag self)
    (master_gain self) (eq_points self) (eq_filters self) v (gate_mode self)
    (open_thr_db self) (close_thr_db self) (floor_db self)
    (expander_ratio self) (attack_open_ms self) (release_close_ms self)
    (env self) (current_gain self) (attack_open self) (release_close self).

Definition with_gate_mode (self : AudioEngine) (v : mode) : AudioEngine :=
  mkAudioEngine (q self) (stream self) (stop_event self) (paused_flag self)
    (master_gain self) (eq_points self) (eq_filters self)
    (gate_enabled self) v (open_thr_db self) (close_thr_db self)
    (floor_db self) (expander_ratio self) (attack_open_ms self)
    (release_close_ms self) (env self) (current_gain self)
    (attack_open self) (release_close self).

Definition with_open_thr_db (self : AudioEngine) (v : R) : AudioEngine :=
  mkAudioEngine (q self) (stream self) (stop_event self) (paused_flag self)
    (master_gain self) (eq_points self) (eq_filters self)
    (gate_enabled self) (gate_mode self) v (close_thr_db self)
    (floor_db self) (expander_ratio self) (attack_open_ms self)
    (release_close_ms self) (env self) (current_gain self)
    (attack_open self) (release_close self).

Definition with_close_thr_db (self : AudioEngine) (v : R) : AudioEngine :=
  mkAudioEngine (q self) (stream self) (stop_event self) (paused_flag self)
    (master_gain self) (eq_points self) (eq_filters self)
    (gate_enabled self) (gate_mode self) (open_thr_db self) v
    (floor_db self) (expander_ratio self) (attack_open_ms self)
    (release_close_ms self) (env self) (current_gain self)
    (attack_open self) (release_close self).

Definition with_floor_db (self : AudioEngine) (v : R) : AudioEngine :=
  mkAudioEngine (q self) (stream self) (stop_event self) (paused_flag self)
    (master_gain self) (eq_points self) (eq_filters self)
    (gate_enabled self) (gate_mode self) (open_thr_db self)
    (close_thr_db self) v (expander_ratio self) (attack_open_ms self)
    (release_close_ms self) (env self) (current_gain self)
    (attack_open self) (release_close self).

Definition with_expander_ratio (self : AudioEngine) (v : R) : AudioEngine :=
  mkAudioEngine (q self) (stream self) (stop_event self) (paused_flag self)
    (master_gain self) (eq_points self) (eq_filters self)
    (gate_enabled self) (gate_mode self) (open_thr_db self)
    (close_thr_db self) (floor_db self) v (attack_open_ms self)
    (release_close_ms self) (env self) (current_gain self)
    (attack_open self) (release_close self).

Definition with_gate_state (self : AudioEngine) (e : R) (g : R) : AudioEngine :=
  mkAudioEngine (q self) (stream self) (stop_event self) (paused_flag self)
    (master_gain self) (eq_points self) (eq_filters self)
    (gate_enabled self) (gate_mode self) (open_thr_db self)
    (close_thr_db self) (floor_db self) (expander_ratio self)
    (attack_open_ms self) (release_close_ms self) e g (attack_open self)
    (release_close self).

Definition with_time_consts (self : AudioEngine) (atk : R) (rel : R) : AudioEngine :=
  mkAudioEngine (q self) (stream self) (stop_event self) (paused_flag self)
    (master_gain self) (eq_points self) (eq_filters self)
    (gate_enabled self) (gate_mode self) (open_thr_db self)
    (close_thr_db self) (floor_db self) (expander_ratio self)
    (attack_open_ms self) (release_close_ms self) (env self)
    (current_gain self) atk rel.

(** Python list indexing [l[idx]] on a list of length [n]: negative
    indices count from the end, anything else out of range raises. *)
Definition py_index (n : nat) (idx : Z) : outcome nat :=
  if ((0 <=? idx) && (idx <? Z.of_nat n))%Z then Returns (Z.to_nat idx)
  else if ((- Z.of_nat n <=? idx) && (idx <? 0))%Z then Returns (Z.to_nat (idx + Z.of_nat n))
  else Raises IndexError.

(** [AudioEngine._update_time_consts] *)
Definition _update_time_consts (self : AudioEngine) : outcome AudioEngine :=
  xa ← pydiv (-1) (APP_SR * (attack_open_ms self / 1000));
  xr ← pydiv (-1) (APP_SR * (release_close_ms self / 1000));
  Returns (with_time_consts self (exp xa) (exp xr)).

(** The loop of [AudioEngine._refresh_eq_filters] over
    [zip(self.eq_filters, self.eq_points)]. *)
Fixpoint refresh_loop (filters : list Biquad) (points : list band) : outcome (list Biquad) :=
  match filters, points with
  | biq :: filters', bd :: points' =>
      biq' ← set_peaking_eq biq APP_SR (freq bd) (Q bd) (gain bd);
      rest ← refresh_loop filters' points';
      Returns (biq' :: rest)
  | _, _ => Returns []
  end.

(** [AudioEngine._refresh_eq_filters] *)
Definition _refresh_eq_filters (self : AudioEngine) : outcome AudioEngine :=
  filters ← refresh_loop (eq_filters self) (eq_points self);
  Returns (with_eq_filters self filters).

(** [AudioEngine.__init__].  The two smoothing coefficients do not
    exist before [_update_time_consts] assigns them; the record holds 0
    for them until then. *)
Definition AudioEngine_init : outcome AudioEngine :=
  let points :=
    [ mkBand 100 1 0; mkBand 300 1 0; mkBand 1000 1 0;
      mkBand 3000 1 0; mkBand 8000 1 0 ] in
  let self0 :=
    mkAudioEngine [] None false false
      1 points (map (fun _ => Biquad_init) points)
      false Gate (-42) (-48) (-40) 4 3 120 0 1
      0 0 in
  self1 ← _refresh_eq_filters self0;
  _update_time_consts self1.

(** *** Setters used by the UI *)

Definition set_volume_db (self : AudioEngine) (db : R) : AudioEngine :=
  with_master_gain self (db_to_gain db).

(** [AudioEngine.set_eq_gain].  The gain of the band is stored first;
    a raise of [set_peaking_eq] comes after that assignment. *)
Definition set_eq_gain (self : AudioEngine) (idx : Z) (db : R)
  : AudioEngine * outcome unit :=
  match py_index (length (eq_points self)) idx with
  | Raises e => (self, Raises e)
  | Returns i =>
      match eq_points self !! i with
      | None => (self, Raises IndexError)
      | Some bd =>
          let bd' := mkBand (freq bd) (Q bd) db in
          let self1 := with_eq_points self (<[i := bd']> (eq_points self)) in
          match py_index (length (eq_filters self1)) idx with
          | Raises e => (self1, Raises e)
          | Returns j =>
              match eq_filters self1 !! j with
              | None => (self1, Raises IndexError)
              | Some biq =>
                  match set_peaking_eq biq APP_SR (freq bd') (Q bd') (gain bd') with
                  | Raises e => (self1, Raises e)
                  | Returns biq' =>
                      (with_eq_filters self1 (<[j := biq']> (eq_filters self1)),
                       Returns tt)
                  end
              end
          end
      end
  end.

Definition set_gate_enabled (self : AudioEngine) (enabled : bool) : AudioEngine :=
  with_gate_enabled self enabled.

Definition set_gate_mode (self : AudioEngine) (m : string) : AudioEngine :=
  with_gate_mode self (if String.eqb m "Expander" then Expander else Gate).

Definition set_gate_open_thr (self : AudioEngine) (db : R) : AudioEngine :=
  with_open_thr_db self db.

Definition set_gate_close_thr (self : AudioEngine) (db : R) : AudioEngine :=
  with_close_thr_db self db.

Definition set_gate_floor (self : AudioEngine) (db : R) : AudioEngine :=
  with_floor_db self db.

Definition set_expander_ratio (self : AudioEngine) (r : R) : AudioEngine :=
  with_expander_ratio self r.

(** *** Lifecycle *)

(** [AudioEngine.start]; opening the device is taken to succeed. *)
Definition start (self : AudioEngine) : AudioEngine :=
  match stream self with
  | Some _ => self
  | None =>
      let self1 := with_stop_event self false in
      let self2 := with_paused_flag self1 false in
      with_stream self2 (Some (mkOutputStream APP_SR 1 BLOCK))
  end.

Definition pause (self : AudioEngine) (flag : bool) : AudioEngine :=
  with_paused_flag self flag.

(** [AudioEngine.stop].  [stream_fault] is the exception raised by
    [stream.stop()] or [stream.close()], if any: the [finally] clause
    still forgets the stream, and the exception leaves [stop] before
    the queue is cleared. *)
Definition stop (self : AudioEngine) (stream_fault : option exn)
  : AudioEngine * outcome unit :=
  let self1 := with_stop_event self true in
  match stream self1, stream_fault with
  | Some _, Some e => (with_stream self1 None, Raises e)
  | _, _ =>
      let self2 := with_stream self1 None in
      (with_q self2 [], Returns tt)
  end.

(** ** Realtime gate / expander *)

(** The envelope follower: attack when the magnitude is above the
    envelope, release otherwise. *)
Definition env_update (atk rel envv s : R) : R :=
  if Rlt_dec envv s then atk * envv + (1 - atk) * s
  else rel * envv + (1 - rel) * s.

Definition env_to_db (envv : R) : R := 20 * log10 (Rmax envv 1e-8).

(** The target gain for one sample, from the envelope level in dB. *)
Definition gate_target (m : mode) (open_thr close_thr floor_lin ratio g env_db : R) : R :=
  match m with
  | Gate =>
      if Rle_dec open_thr env_db then 1
      else if Rle_dec env_db close_thr then floor_lin
      else g
  | Expander =>
      if Rle_dec open_thr env_db then 1
      else if Rle_dec env_db close_thr then floor_lin
      else
        let out_db := open_thr + (env_db - open_thr) / ratio in
        let gain_db := out_db - env_db in
        Rmax floor_lin (db_to_gain gain_db)
  end.

(** The smoothing of the gain toward its target. *)
Definition gain_smooth (g target : R) : R :=
  if Rlt_dec g target then 0.9 * g + 0.1 * target
  else 0.98 * g + 0.02 * target.

(** One turn of the sample loop of [_gate_or_expander]: the new
    envelope, the new gain and the sample after [x[i] *= g]. *)
Definition gate_sample (m : mode) (atk rel open_thr close_thr floor_lin ratio : R)
  (envv g xi : R) : R * R * R :=
  let s := Rabs xi in
  let envv' := env_update atk rel envv s in
  let env_db := env_to_db envv' in
  let target := gate_target m open_thr close_thr floor_lin ratio g env_db in
  let g' := gain_smooth g target in
  (envv', g', xi * g').

Fixpoint gate_loop (m : mode) (atk rel open_thr close_thr floor_lin ratio : R)
  (envv g : R) (x : list R) : R * R * list R :=
  match x with
  | [] => (envv, g, [])
  | xi :: rest =>
      let '(envv', g', y) :=
        gate_sample m atk rel open_thr close_thr floor_lin ratio envv g xi in
      let '(envv'', g'', ys) :=
        gate_loop m atk rel open_thr close_thr floor_lin ratio envv' g' rest in
      (envv'', g'', y :: ys)
  end.

(** [AudioEngine._gate_or_expander] *)
Definition _gate_or_expander (self : AudioEngine) (x : list R) : AudioEngine * list R :=
  let atk := attack_open self in
  let rel := release_close self in
  let open_thr := open_thr_db self in
  let close_thr := close_thr_db self in
  let floor_lin := db_to_gain (floor_db self) in
  let ratio := Rmax 1.001 (expander_ratio self) in
  let '(envv, g, ys) :=
    gate_loop (gate_mode self) atk rel open_thr close_thr floor_lin ratio
              (env self) (current_gain self) x in
  (with_gate_state self envv g, ys).

(** ** The output callback *)

(** [queue.Queue.get(timeout=t)]: the item popped, if any, the queue
    left, and the time spent blocked. *)
Definition q_get (qu : list item) (timeout : R) : option item * list item * R :=
  match qu with
  | [] => (None, [], timeout)
  | it :: rest => (Some it, rest, 0)
  end.

(** The chain [for biq in self.eq_filters: biq.process_inplace(buf)]. *)
Fixpoint eq_chain (filters : list Biquad) (buf : list R) : list Biquad * list R :=
  match filters with
  | [] => ([], buf)
  | biq :: rest =>
      let '(biq', buf1) := process_inplace biq buf in
      let '(rest', buf2) := eq_chain rest buf1 in
      (biq' :: rest', buf2)
  end.

(** [np.clip(v, -1.0, 1.0)] *)
Definition clip (v : R) : R := Rmin (Rmax v (-1)) 1.

(** [outdata[:] = buf.reshape(-1, 1)] on an output of shape
    [(frames, 1)]: the shapes agree, or a single row is broadcast. *)
Definition assign_outdata (frames : nat) (buf : list R) : outcome (list R) :=
  if Nat.eqb (length buf) frames then Returns buf
  else match buf with
       | [v] => Returns (repeat v frames)
       | _ => Raises ValueError
       end.

Record cb_result : Type := mkCb {
  cb_self : AudioEngine;
  cb_outdata : outcome (list R);
  cb_blocked : R
}.

Section Callback.

(** The value of one little-endian IEEE binary32 word. *)
Variable f32 : byte -> byte -> byte -> byte -> R.

(** [np.frombuffer(item, dtype=np.float32)]: the length of the buffer
    must be a multiple of the element size. *)
Fixpoint frombuffer (b : list byte) : outcome (list R) :=
  match b with
  | [] => Returns []
  | c0 :: c1 :: c2 :: c3 :: rest =>
      xs ← frombuffer rest;
      Returns (f32 c0 c1 c2 c3 :: xs)
  | _ => Raises ValueError
  end.

(** [AudioEngine._callback] with an output block of [frames] rows. *)
Definition _callback (self : AudioEngine) (frames : nat) : cb_result :=
  if paused_flag self then mkCb self (Returns (repeat 0 frames)) 0
  else
    let '(got, q', t) := q_get (q self) 0.2 in
    let self1 := with_q self q' in
    match got with
    | None => mkCb self1 (Returns (repeat 0 frames)) t
    | Some EndOfStream => mkCb self1 (Returns (repeat 0 frames)) t
    | Some (ErrorItem _) => mkCb self1 (Returns (repeat 0 frames)) t
    | Some (Frame b) =>
        match frombuffer b with
        | Raises e => mkCb self1 (Raises e) t
        | Returns buf =>
            let '(self2, buf1) :=
              if gate_enabled self1 then _gate_or_expander self1 buf
              else (self1, buf) in
            let '(filters, buf2) := eq_chain (eq_filters self2) buf1 in
            let self3 := with_eq_filters self2 filters in
            let buf3 := map (fun v => v * master_gain self3) buf2 in
            let buf4 := map clip buf3 in
            mkCb self3 (assign_outdata frames buf4) t
        end
    end.

End Callback.

(** ** Vocabulary of the properties *)

(** The coefficients of a section that passes its input through. *)
Definition identity_coeffs (biq : Biquad) : Prop :=
  b0 biq = 1 /\ b1 biq = a1 biq /\ b2 biq = a2 biq.

(** A band at 0 dB whose centre lies below the Nyquist frequency of the
    engine. *)
Definition flat_band (bd : band) : Prop :=
  gain bd = 0 /\ 0 < freq bd < APP_SR / 2 /\ 0 < Q bd.

(** A band the engine can refresh without a zero division. *)
Definition band_ok (bd : band) : Prop :=
  0 < freq bd < APP_SR / 2 /\ 0 < Q bd.

(** The smoothing coefficients are the ones [_update_time_consts]
    derives from positive time constants. *)
Definition time_consts_ok (self : AudioEngine) : Prop :=
  0 < attack_open_ms self /\ 0 < release_close_ms self
  /\ attack_open self = exp (-1 / (APP_SR * (attack_open_ms self / 1000)))
  /\ release_close self = exp (-1 / (APP_SR * (release_close_ms self / 1000))).

(** The envelope follower alone, over the magnitudes of a block. *)
Fixpoint env_run (atk rel envv : R) (x : list R) : R :=
  match x with
  | [] => envv
  | xi :: rest => env_run atk rel (env_update atk rel envv (Rabs xi)) rest
  end.

(** The engine as [__init__] leaves it. *)
Record as_constructed (self : AudioEngine) : Prop := {
  ac_q : q self = [];
  ac_stream : stream self = None;
  ac_stop_event : stop_event self = false;
  ac_paused_flag : paused_flag self = false;
  ac_master_gain : master_gain self = 1;
  ac_eq_points :
    eq_points self
    = [ mkBand 100 1 0; mkBand 300 1 0; mkBand 1000 1 0;
        mkBand 3000 1 0; mkBand 8000 1 0 ];
  ac_eq_filters_length : length (eq_filters self) = 5%nat;
  ac_eq_filters : Forall identity_coeffs (eq_filters self);
  ac_gate_enabled : gate_enabled self = false;
  ac_gate_mode : gate_mode self = Gate;
  ac_open_thr_db : open_thr_db self = -42;
  ac_close_thr_db : close_thr_db self = -48;
  ac_floor_db : floor_db self = -40;
  ac_expander_ratio : expander_ratio self = 4;
  ac_env : env self = 0;
  ac_current_gain : current_gain self = 1;
  ac_time_consts : time_consts_ok self
}.

(** A statement about the engine right after construction. *)
Definition after_init (P : AudioEngine -> Prop) : Prop :=
  match AudioEngine_init with
  | Returns self => P self
  | Raises _ => False
  end.


(** ** Settings applied to the engine *)

(** The entries of [SettingsManager.data] the engine is fed from, by
    key: ["volume_db"], ["eq"], ["gate_enabled"], ["gate_mode"],
    ["open_thr_db"], ["close_thr_db"], ["floor_db"],
    ["expander_ratio"]. *)
Record settings : Type := mkSettings {
  s_volume_db : R;
  s_eq : list R;
  s_gate_enabled : bool;
  s_gate_mode : string;
  s_open_thr_db : R;
  s_close_thr_db : R;
  s_floor_db : R;
  s_expander_ratio : R
}.

(** The loop [for i, ... in enumerate(self.eq_sliders)] of
    [App._apply_settings_to_ui_and_engine], from slider [i] on, with
    [count] sliders to go: [g = s["eq"][i]], then
    [self.audio.set_eq_gain(i, g)]. *)
Fixpoint eq_gains_loop (self : AudioEngine) (eq : list R) (i count : nat)
  : AudioEngine * outcome unit :=
  match count with
  | O => (self, Returns tt)
  | S count' =>
      match eq !! i with
      | None => (self, Raises IndexError)
      | Some g =>
          match set_eq_gain self (Z.of_nat i) g with
          | (self', Returns _) => eq_gains_loop self' eq (S i) count'
          | (self', Raises e) => (self', Raises e)
          end
      end
  end.

(** What [App._apply_settings_to_ui_and_engine] does to the engine, in
    the order of the source; the five sliders are those [_build_ui]
    creates.  The widget updates in between do not reach the engine
    and are left out. *)
Definition _apply_settings_to_engine (self : AudioEngine) (s : settings)
  : AudioEngine * outcome unit :=
  let self1 := set_volume_db self (s_volume_db s) in
  match eq_gains_loop self1 (s_eq s) 0 5 with
  | (self2, Raises e) => (self2, Raises e)
  | (self2, Returns _) =>
      let self3 := set_gate_mode self2 (s_gate_mode s) in
      let self4 := set_gate_open_thr self3 (s_open_thr_db s) in
      let self5 := set_gate_close_thr self4 (s_close_thr_db s) in
      let self6 := set_gate_floor self5 (s_floor_db s) in
      let self7 := set_expander_ratio self6 (s_expander_ratio s) in
      (set_gate_enabled self7 (s_gate_enabled s), Returns tt)
  end.

(** ** The batch filter chain of [dog_audio_watcher_headless.py] *)

(** The maximum attenuation handed to [agate]:
    [max(6.0, min(80.0, abs(float(floor_db))))]. *)
Definition agate_range (floor_db : R) : R := Rmax 6 (Rmin 80 (Rabs floor_db)).

(** The [mode] of [agate]: 1 for the expander, 0 otherwise. *)
Definition agate_mode (gate_mode : string) : Z :=
  if String.eqb gate_mode "Expander" then 1%Z else 0%Z.

(** The ratio handed to [agate]: the setting, at least 1.1, for the
    expander; 2.0 for the gate. *)
Definition agate_ratio (gate_mode : string) (ratio : R) : R :=
  if Z.eqb (agate_mode gate_mode) 1 then Rmax 1.1 ratio else 2.

Section BatchFilter.

(** [fmt n x] is Python's [format(x, ".nf")]. *)
Variable fmt : nat -> R -> string.

(** The loop over [zip(freqs, eq5)]: bands within 0.01 dB of flat are
    skipped. *)
Fixpoint eq_entries (bands : list (Z * R)) : list string :=
  match bands with
  | [] => []
  | (f, g) :: rest =>
      if Rlt_dec (Rabs g) 0.01 then eq_entries rest
      else ("equalizer=f=" +:+ pretty f +:+ ":t=q:w=1:g=" +:+ fmt 3 g) :: eq_entries rest
  end.

Definition agate_entry (gate_mode : string) (close_thr floor_db ratio : R) : string :=
  "agate=mode=" +:+ pretty (agate_mode gate_mode)
  +:+ ":threshold=" +:+ fmt 1 close_thr
  +:+ "dB:ratio=" +:+ fmt 2 (agate_ratio gate_mode ratio)
  +:+ ":range=" +:+ fmt 1 (agate_range floor_db)
  +:+ "dB:attack=3:release=120".

(** [chain[-1] = chain[-1] + "[aout]"] *)
Fixpoint label_last (chain : list string) : list string :=
  match chain with
  | [] => []
  | [last] => [last +:+ "[aout]"]
  | entry :: rest => entry :: label_last rest
  end.

(** [build_ffmpeg_filter_from_settings] *)
Definition build_ffmpeg_filter_from_settings
  (vol_db : R) (eq5 : list R) (gate_on : bool) (gate_mode : string)
  (open_thr close_thr floor_db ratio : R) : string :=
  let chain0 :=
    [ "[0:a]pan=mono|c0=0.5*c0+0.5*c1"; "aresample=48000";
      "aformat=sample_fmts=fltp:channel_layouts=mono" ]%string in
  let freqs := [100; 300; 1000; 3000; 8000]%Z in
  let chain1 := chain0 ++ eq_entries (combine freqs eq5) in
  let chain2 :=
    if gate_on then chain1 ++ [agate_entry gate_mode close_thr floor_db ratio]
    else chain1 in
  let chain3 :=
    if Rlt_dec 0.01 (Rabs vol_db)
    then chain2 ++ [("volume=" +:+ fmt 2 vol_db +:+ "dB")%string]
    else chain2 in
  let chain4 := chain3 ++ ["pan=stereo|c0=c0|c1=c0"%string] in
  String.concat "," (label_last chain4).

End BatchFilter.

(** ** Presets *)

(** The values a settings dictionary holds. *)
Inductive pyval : Type :=
| PFloat (r : R)
| PBool (b : bool)
| PStr (s : string)
| PFloats (l : list R).

(** [p.get("name") == name] *)
Definition name_is (name : string) (p : gmap string pyval) : bool :=
  match p !! "name"%string with
  | Some (PStr s) => String.eqb s name
  | _ => false
  end.

(** The [for ... else] of [App.on_save_preset]: the first preset of that
    name is replaced; [None] when the loop ends without a [break]. *)
Fixpoint overwrite_preset (presets : list (gmap string pyval)) (name : string)
  (state : gmap string pyval) : option (list (gmap string pyval)) :=
  match presets with
  | [] => None
  | p :: rest =>
      if name_is name p then Some (state :: rest)
      else option_map (cons p) (overwrite_preset rest name state)
  end.

(** What [App.on_save_preset] does to the list of presets; [name] is the
    text of the entry after [strip()], [state] the dictionary of
    [_current_state_from_ui]. *)
Definition on_save_preset (presets : list (gmap string pyval)) (name : string)
  (state : gmap string pyval) : list (gmap string pyval) :=
  if String.eqb name "" then presets
  else
    let state' := <["name"%string := PStr name]> state in
    match overwrite_preset presets name state' with
    | Some presets' => presets'
    | None => presets ++ [state']
    end.

(** The keys [App.on_load_preset] copies. *)
Definition preset_keys : list string :=
  [ "volume_db"; "eq"; "gate_enabled"; "gate_mode";
    "open_thr_db"; "close_thr_db"; "floor_db"; "expander_ratio" ]%string.

(** [if key in preset: self.settings.data[key] = preset[key]] *)
Definition copy_key (preset data : gmap string pyval) (key : string)
  : gmap string pyval :=
  match preset !! key with
  | Some v => <[key := v]> data
  | None => data
  end.

(** What [App.on_load_preset] does to [settings.data]: [None] when no
    name is selected or no preset has it. *)
Definition on_load_preset (data : gmap string pyval)
  (presets : list (gmap string pyval)) (name : string)
  : option (gmap string pyval) :=
  if String.eqb name "" then None
  else
    match List.find (name_is name) presets with
    | None => None
    | Some preset =>
        if decide (preset = ∅) then None
        else
          Some (fold_left (copy_key preset) preset_keys data)
    end.

(** What [App.on_delete_preset] does to the list of presets: [None] when
    no name is selected or no preset has it. *)
Definition on_delete_preset (presets : list (gmap string pyval)) (name : string)
  : option (list (gmap string pyval)) :=
  if String.eqb name "" then None
  else
    let new_presets := List.filter (fun p => negb (name_is name p)) presets in
    if Nat.eqb (length new_presets) (length presets) then None
    else Some new_presets.

(** ** Further vocabulary *)

(** The bytes the outer loop of [FFmpegPCMReader.run] gets from its
    reads, up to the end of file, a failing read or the stop. *)
Fixpoint bytes_read (evs : list reader_event) : list byte :=
  match evs with
  | [] => []
  | PausedTick :: evs' => bytes_read evs'
  | Read chunk :: evs' =>
      match chunk with
      | [] => []
      | _ :: _ => chunk ++ bytes_read evs'
      end
  | ReadFails :: _ => []
  end.

(** Two filters with the same five coefficients. *)
Definition same_coeffs (biq biq' : Biquad) : Prop :=
  b0 biq' = b0 biq /\ b1 biq' = b1 biq /\ b2 biq' = b2 biq
  /\ a1 biq' = a1 biq /\ a2 biq' = a2 biq.

(** Two engines with the same control parameters: everything but the
    queue, the running state of the filters and the state of the gate. *)
Definition same_params (self self' : AudioEngine) : Prop :=
  stream self' = stream self
  /\ stop_event self' = stop_event self
  /\ paused_flag self' = paused_flag self
  /\ master_gain self' = master_gain self
  /\ eq_points self' = eq_points self
  /\ Forall2 same_coeffs (eq_filters self) (eq_filters self')
  /\ gate_enabled self' = gate_enabled self
  /\ gate_mode self' = gate_mode self
  /\ open_thr_db self' = open_thr_db self
  /\ close_thr_db self' = close_thr_db self
  /\ floor_db self' = floor_db self
  /\ expander_ratio self' = expander_ratio self
  /\ attack_open self' = attack_open self
  /\ release_close self' = release_close self.

(** The lists of bands and of filters go together, and every band can
    be refreshed. *)
Definition bands_ok (self : AudioEngine) : Prop :=
  length (eq_filters self) = length (eq_points self)
  /\ Forall band_ok (eq_points self).

(** The output device calls the callback block after block; an
    exception raised by the callback ends the stream.  [callback_n]
    is [n] such invocations: the engine left and the blocks delivered,
    the last of which may be the exception. *)
Fixpoint callback_n (f32 : byte -> byte -> byte -> byte -> R)
  (n : nat) (self : AudioEngine) (frames : nat)
  : AudioEngine * list (outcome (list R)) :=
  match n with
  | O => (self, [])
  | S n' =>
      let r := _callback f32 self frames in
      match cb_outdata r with
      | Raises e => (cb_self r, [Raises e])
      | Returns out =>
          let '(self', outs) := callback_n f32 n' (cb_self r) frames in
          (self', Returns out :: outs)
      end
  end.

(** An item the callback turns into a block of [frames] rows without
    raising: a sentinel, or a frame of [frames] samples. *)
Definition playable (frames : nat) (it : item) : Prop :=
  match it with
  | Frame b => length b = (frames * 4)%nat
  | ErrorItem _ => True
  | EndOfStream => True
  end.

(** ** The arithmetic of the gate and of the clip in IEEE 754 *)

(** Everything above reads the floats of the program as real numbers.
    The blends of the gate and the clip of the callback are given here
    in the arithmetic the program runs them in.  [SpecFloat] is the Standard Library's executable
    model of IEEE 754 with rounding to nearest, ties to even: binary64
    (53 significant bits, [emax] 1024) is Python's [float], binary32
    (24 bits, [emax] 128) is NumPy's [float32].  A value is kept in the
    canonical form of its own format. *)
Definition float : Type := SpecFloat.spec_float.

(** [+], [-], [*] and [/] on two Python floats. *)
Definition f64_add : float -> float -> float := SpecFloat.SFadd 53 1024.
Definition f64_sub : float -> float -> float := SpecFloat.SFsub 53 1024.
Definition f64_mul : float -> float -> float := SpecFloat.SFmul 53 1024.
Definition f64_div : float -> float -> float := SpecFloat.SFdiv 53 1024.

(** [+] and [*] on two float32 values. *)
Definition f32_add : float -> float -> float := SpecFloat.SFadd 24 128.
Definition f32_mul : float -> float -> float := SpecFloat.SFmul 24 128.

(** [x < y] and [x <= y] on two values of one format; both are false
    when an operand is not a number. *)
Definition float_lt (x y : float) : bool := SpecFloat.SFltb x y.
Definition float_le (x y : float) : bool := SpecFloat.SFleb x y.

(** An integer as a Python float, and a decimal literal of the source
    as the double nearest to the quotient [n / d]: [0.98] is
    [f64_lit 98 100]. *)
Definition f64_of_Z (n : Z) : float := SpecFloat.binary_normalize 53 1024 n 0 false.
Definition f64_lit (n d : Z) : float := f64_div (f64_of_Z n) (f64_of_Z d).

(** A Python float that meets a float32 operand is rounded to float32
    first (NumPy 2 and later). *)
Definition f32_of_f64 (x : float) : float :=
  match x with
  | SpecFloat.S754_finite s m e => SpecFloat.binary_round 24 128 s m e
  | _ => x
  end.

(** The envelope follower of [_gate_or_expander], lines 300-304.  The
    magnitude [s = abs(x[i])] is a float32.  From NumPy 2 on, a Python
    float that meets a float32 takes its type: [atk] and [1 - atk], the
    latter computed on Python floats, are rounded to float32, the
    products and the sum are float32 operations, and the envelope is a
    float32. *)
Definition env_update_f32 (atk rel envv s : float) : float :=
  if float_lt envv s
  then f32_add (f32_mul (f32_of_f64 atk) envv)
               (f32_mul (f32_of_f64 (f64_sub (f64_of_Z 1) atk)) s)
  else f32_add (f32_mul (f32_of_f64 rel) envv)
               (f32_mul (f32_of_f64 (f64_sub (f64_of_Z 1) rel)) s).

(** The same lines before NumPy 2: the magnitude is widened, and the
    products, the sum and the envelope are binary64. *)
Definition env_update_f64 (atk rel envv s : float) : float :=
  if float_lt envv s
  then f64_add (f64_mul atk envv) (f64_mul (f64_sub (f64_of_Z 1) atk) s)
  else f64_add (f64_mul rel envv) (f64_mul (f64_sub (f64_of_Z 1) rel) s).

(** The float32 envelope over the magnitudes of a block. *)
Fixpoint env_run_f32 (atk rel envv : float) (x : list float) : float :=
  match x with
  | [] => envv
  | xi :: rest =>
      env_run_f32 atk rel (env_update_f32 atk rel envv (SpecFloat.SFabs xi)) rest
  end.

(** The target of [Gate] mode, lines 309-315, from the level in dB;
    the level itself comes out of [math.log10], which is the C
    library's and is not modelled. *)
Definition gate_target_f64 (open_thr close_thr floor_lin g env_db : float) : float :=
  if float_le open_thr env_db then f64_of_Z 1
  else if float_le env_db close_thr then floor_lin
  else g.

(** The smoothing of the gain, lines 326-329: [g], [target] and the four
    literals are Python floats. *)
Definition gain_smooth_f64 (g target : float) : float :=
  if float_lt g target
  then f64_add (f64_mul (f64_lit 9 10) g) (f64_mul (f64_lit 1 10) target)
  else f64_add (f64_mul (f64_lit 98 100) g) (f64_mul (f64_lit 2 100) target).

(** The gain over a run of samples in [Gate] mode, from the levels in
    dB the samples bring the envelope to: lines 309-315 and 326-329 in
    turn, as the loop takes them. *)
Fixpoint gate_gain_run_f64 (open_thr close_thr floor_lin g : float)
  (env_dbs : list float) : float :=
  match env_dbs with
  | [] => g
  | env_db :: rest =>
      let target := gate_target_f64 open_thr close_thr floor_lin g env_db in
      gate_gain_run_f64 open_thr close_thr floor_lin (gain_smooth_f64 g target) rest
  end.

(** [np.clip(v, -1.0, 1.0)] on a float32, the last stage of the
    callback: the larger of [v] and -1, then the smaller of that and 1.
    A value that is not a number passes through. *)
Definition f32_one : float := f32_of_f64 (f64_of_Z 1).
Definition f32_minus_one : float := f32_of_f64 (f64_of_Z (-1)).
Definition clip_f32 (v : float) : float :=
  match v with
  | SpecFloat.S754_nan => v
  | _ =>
      if float_lt v f32_minus_one then f32_minus_one
      else if float_lt f32_one v then f32_one
      else v
  end.

(** The coefficients [__init__] stores: [math.exp(-1.0 / 144.0)] is
    0.9930796124903161 (0x1.fc74ee53f0c60p-1) and
    [math.exp(-1.0 / 5760.0)] is 0.9998264039584257
    (0x1.ffe93f155b81ap-1), the doubles nearest to the two exponentials;
    [APP_SR * (3.0 / 1000.0)] and [APP_SR * (120.0 / 1000.0)] round to
    144.0 and 5760.0. *)
Definition attack_open_f64 : float :=
  SpecFloat.S754_finite false 8944865945521248 (-53).
Definition release_close_f64 : float :=
  SpecFloat.S754_finite false 9005635640604698 (-53).

(** ** Stopping from the transport buttons *)



(** * Properties *)

(** ** Arithmetic of the Python operations *)

Lemma BLOCK_eq : BLOCK = 1024%nat.
Proof. reflexivity. Qed.

Lemma BLOCK_pos : (0 < BLOCK)%nat.
Proof. rewrite BLOCK_eq. lia. Qed.

Lemma pydiv_ok (a b : R) : b <> 0 -> pydiv a b = Returns (a / b).
Proof. intros Hb. unfold pydiv. destruct (Req_dec_T b 0); [contradiction | reflexivity]. Qed.

Lemma pydiv_zero (a : R) : pydiv a 0 = Raises ZeroDivisionError.
Proof. unfold pydiv. destruct (Req_dec_T 0 0) as [_ | H]; [reflexivity | now destruct H]. Qed.

Lemma Rpower_10_0 : Rpower 10 0 = 1.
Proof. apply Rpower_O. lra. Qed.

Lemma Rpower_10_pos (x : R) : 0 < Rpower 10 x.
Proof. unfold Rpower. apply exp_pos. Qed.

Lemma ln_10_pos : 0 < ln 10.
Proof. rewrite <- ln_1. apply ln_increasing; lra. Qed.

Lemma db_to_gain_pos (db : R) : 0 < db_to_gain db.
Proof. apply Rpower_10_pos. Qed.

Lemma db_to_gain_0 : db_to_gain 0 = 1.
Proof. unfold db_to_gain. replace (0 / 20) with 0 by lra. apply Rpower_10_0. Qed.

Lemma db_to_gain_lt (x y : R) : x < y -> db_to_gain x < db_to_gain y.
Proof. intros H. unfold db_to_gain. apply Rpower_lt; lra. Qed.

Lemma db_to_gain_le (x y : R) : x <= y -> db_to_gain x <= db_to_gain y.
Proof.
  intros [H | ->]; [left; now apply db_to_gain_lt | right; reflexivity].
Qed.

(** ** Biquad *)

(** With [gain_db = 0] and a non-zero [a0] the coefficients are those of
    the identity: [b0 = 1], [b1 = a1], [b2 = a2]. *)
Lemma set_peaking_eq_zero_gain (self : Biquad) (fs f0 Qf : R) :
  fs <> 0 -> Qf <> 0 -> 1 + sin (2 * PI * f0 / fs) / (2 * Qf) <> 0 ->
  exists c1 c2,
    set_peaking_eq self fs f0 Qf 0 = Returns (mkBiquad 1 c1 c2 c1 c2 (z1 self) (z2 self)).
Proof.
  intros Hfs HQ Ha0. unfold set_peaking_eq.
  replace (0 / 40) with 0 by lra. rewrite Rpower_10_0.
  rewrite (pydiv_ok _ Hfs). cbn [mbind outcome_bind].
  rewrite pydiv_ok by lra. cbn [mbind outcome_bind].
  rewrite pydiv_ok by lra. cbn [mbind outcome_bind].
  set (alpha := sin (2 * PI * f0 / fs) / (2 * Qf)) in *.
  assert (Ha0' : 1 + alpha / 1 <> 0) by (replace (alpha / 1) with alpha by lra; exact Ha0).
  rewrite !(pydiv_ok _ Ha0'). cbn [mbind outcome_bind mret outcome_ret].
  exists (-2 * cos (2 * PI * f0 / fs) / (1 + alpha / 1)),
         ((1 - alpha / 1) / (1 + alpha / 1)).
  f_equal. f_equal; try reflexivity.
  - field. exact Ha0.
  - f_equal. lra.
Qed.

Lemma biquad_loop_identity (c1 c2 : R) (x : list R) :
  forall s1 s2, snd (biquad_loop 1 c1 c2 c1 c2 s1 s2 x) = x.
Proof.
  induction x as [| xi rest IH]; intros s1 s2; [reflexivity |].
  cbn [biquad_loop].
  specialize (IH (xi - c1 * s1 - c2 * s2) s1).
  destruct (biquad_loop 1 c1 c2 c1 c2 (xi - c1 * s1 - c2 * s2) s1 rest) as [[t1 t2] ys].
  cbn in *. subst ys. f_equal. ring.
Qed.

Lemma process_inplace_identity (c1 c2 s1 s2 : R) (x : list R) :
  snd (process_inplace (mkBiquad 1 c1 c2 c1 c2 s1 s2) x) = x.
Proof.
  unfold process_inplace. cbn [b0 b1 b2 a1 a2 z1 z2].
  pose proof (biquad_loop_identity c1 c2 x s1 s2) as H.
  destruct (biquad_loop 1 c1 c2 c1 c2 s1 s2 x) as [[t1 t2] ys]. exact H.
Qed.

Lemma identity_coeffs_process (biq : Biquad) (x : list R) :
  identity_coeffs biq ->
  snd (process_inplace biq x) = x /\ identity_coeffs (fst (process_inplace biq x)).
Proof.
  destruct biq as [c0 c1 c2 d1 d2 s1 s2]. unfold identity_coeffs. cbn.
  intros (-> & -> & ->). split.
  - apply process_inplace_identity.
  - unfold process_inplace. cbn.
    destruct (biquad_loop 1 d1 d2 d1 d2 s1 s2 x) as [[t1 t2] ys]. cbn. auto.
Qed.

Lemma below_nyquist_a0 (fs f0 Qf : R) :
  0 < fs -> 0 < f0 < fs / 2 -> 0 < Qf ->
  0 < sin (2 * PI * f0 / fs) / (2 * Qf).
Proof.
  intros Hfs [Hf0 Hny] HQ.
  pose proof PI_RGT_0 as Hpi.
  apply Rdiv_lt_0_compat; [| lra].
  replace (2 * PI * f0 / fs) with (PI * (2 * f0 / fs)) by (field; lra).
  assert (H01 : 0 < 2 * f0 / fs < 1).
  { split.
    - apply Rdiv_lt_0_compat; lra.
    - apply Rmult_lt_reg_r with fs; [exact Hfs |].
      replace (2 * f0 / fs * fs) with (2 * f0) by (field; lra). lra. }
  apply sin_gt_0; nra.
Qed.

Lemma APP_SR_pos : 0 < APP_SR.
Proof. unfold APP_SR. lra. Qed.

Lemma refresh_loop_flat (points : list band) :
  Forall flat_band points ->
  forall filters, exists filters',
    refresh_loop filters points = Returns filters'
    /\ Forall identity_coeffs filters'
    /\ length filters' = Nat.min (length filters) (length points).
Proof.
  induction 1 as [| bd points (Hg & Hf & HQ) _ IH]; intros filters.
  - exists []. split; [| split; [constructor |]]; destruct filters; reflexivity.
  - destruct filters as [| biq filters].
    + exists []. split; [reflexivity | split; [constructor | reflexivity]].
    + cbn [refresh_loop]. rewrite Hg.
      pose proof (below_nyquist_a0 APP_SR_pos Hf HQ) as Hpos.
      pose proof APP_SR_pos as Hsr.
      destruct (@set_peaking_eq_zero_gain biq APP_SR (freq bd) (Q bd))
        as (c1 & c2 & Heq); [lra | lra | lra |].
      rewrite Heq. cbn [mbind outcome_bind].
      destruct (IH filters) as (filters' & Hr & Hid & Hlen).
      rewrite Hr. cbn [mbind outcome_bind mret outcome_ret].
      eexists. split; [reflexivity |]. split.
      * constructor; [| exact Hid]. unfold identity_coeffs. cbn. auto.
      * cbn [length Nat.min]. now rewrite Hlen.
Qed.

Lemma eq_chain_identity (filters : list Biquad) :
  Forall identity_coeffs filters ->
  forall buf, snd (eq_chain filters buf) = buf.
Proof.
  induction 1 as [| biq filters Hb _ IH]; intros buf; [reflexivity |].
  cbn [eq_chain].
  destruct (identity_coeffs_process buf Hb) as [Hout _].
  destruct (process_inplace biq buf) as [biq' buf1]. cbn in Hout. subst buf1.
  specialize (IH buf). destruct (eq_chain filters buf) as [rest' buf2].
  exact IH.
Qed.

Lemma update_time_consts_ok (self : AudioEngine) :
  0 < attack_open_ms self -> 0 < release_close_ms self ->
  exists self',
    _update_time_consts self = Returns self' /\ time_consts_ok self'
    /\ self' = with_time_consts self (attack_open self') (release_close self').
Proof.
  intros Ha Hr. unfold _update_time_consts.
  rewrite !pydiv_ok by (unfold APP_SR; lra).
  cbn [mbind outcome_bind mret outcome_ret].
  eexists. split; [reflexivity |]. unfold time_consts_ok. cbn. auto 10.
Qed.

Lemma AudioEngine_init_returns :
  exists self, AudioEngine_init = Returns self /\ as_constructed self.
Proof.
  unfold AudioEngine_init, _refresh_eq_filters. cbn [eq_filters eq_points].
  match goal with
  | |- context [refresh_loop ?fl ?pts] =>
      destruct (@refresh_loop_flat pts) with (filters := fl)
        as (filters' & Hr & Hid & Hlen)
  end.
  { repeat constructor; cbn; unfold APP_SR; lra. }
  rewrite Hr. cbn [mbind outcome_bind mret outcome_ret].
  match goal with
  | |- context [_update_time_consts ?s] =>
      destruct (@update_time_consts_ok s) as (self' & Hu & Hok & Hself)
  end.
  { cbn. lra. }
  { cbn. lra. }
  rewrite Hu. exists self'. split; [reflexivity |].
  rewrite Hself in *. cbn in Hok |- *.
  constructor; cbn; try reflexivity; try assumption.
Qed.

Lemma after_init_intro (P : AudioEngine -> Prop) :
  (forall self, as_constructed self -> P self) -> after_init P.
Proof.
  intros H. unfold after_init.
  destruct AudioEngine_init_returns as (self & -> & Hc). now apply H.
Defined.

(** C6, as stated, fails where [a0] vanishes: at 48 kHz a centre of
    36 kHz with Q = 1/2 gives [sin w0 = -1], [alpha = -1] and
    [a0 = 0]; [set_peaking_eq] raises [ZeroDivisionError] and no filter
    is configured. *)
Lemma zero_gain_a0_vanishes :
  0 < 48000 /\ 0 < 1 / 2
  /\ set_peaking_eq Biquad_init 48000 36000 (1 / 2) 0 = Raises ZeroDivisionError.
Proof.
  split; [lra |]. split; [lra |].
  unfold set_peaking_eq.
  rewrite pydiv_ok by lra. cbn [mbind outcome_bind].
  replace (2 * PI * 36000 / 48000) with (3 * (PI / 2)) by lra.
  rewrite sin_3PI2.
  rewrite pydiv_ok by lra. cbn [mbind outcome_bind].
  replace (0 / 40) with 0 by lra. rewrite Rpower_10_0.
  rewrite pydiv_ok by lra. cbn [mbind outcome_bind].
  replace (1 + -1 / (2 * (1 / 2)) / 1) with 0 by lra.
  rewrite !pydiv_zero. reflexivity.
Qed.

(** C6 (amended): for a sample rate [fs > 0], a quality [Q > 0] and a
    centre frequency at which [a0 = 1 + sin(2 pi f0 / fs) / (2 Q)] is
    not zero, [set_peaking_eq] with [gain_db = 0] returns a filter whose
    [process_inplace] leaves every block unchanged, whatever the running
    state; and a bank refreshed from bands that are all at 0 dB, with
    centres below the Nyquist frequency of the engine and positive Q,
    gives back its input. *)
Theorem zero_gain_identity
  (self : Biquad) (fs f0 Qf : R) (filters : list Biquad) (points : list band) :
  0 < fs -> 0 < Qf ->
  1 + sin (2 * PI * f0 / fs) / (2 * Qf) <> 0 ->
  Forall flat_band points ->
  (exists biq,
      set_peaking_eq self fs f0 Qf 0 = Returns biq
      /\ forall x, snd (process_inplace biq x) = x)
  /\ (exists filters',
         refresh_loop filters points = Returns filters'
         /\ forall buf, snd (eq_chain filters' buf) = buf).
Proof.
  intros Hfs HQ Ha0 Hpts. split.
  - destruct (@set_peaking_eq_zero_gain self fs f0 Qf) as (c1 & c2 & Heq);
      [lra | lra | exact Ha0 |].
    eexists. split; [exact Heq |]. intros x. apply process_inplace_identity.
  - destruct (refresh_loop_flat Hpts filters) as (filters' & Hr & Hid & _).
    exists filters'. split; [exact Hr |]. now apply eq_chain_identity.
Qed.

Lemma zero_gain_identity_witness :
  (exists biq,
      set_peaking_eq Biquad_init 48000 1000 1 0 = Returns biq
      /\ forall x, snd (process_inplace biq x) = x)
  /\ (exists filters',
         refresh_loop [Biquad_init; Biquad_init] [mkBand 100 1 0; mkBand 8000 1 0]
         = Returns filters'
         /\ forall buf, snd (eq_chain filters' buf) = buf).
Proof.
  apply zero_gain_identity.
  - lra.
  - lra.
  - assert (H : 0 < sin (2 * PI * 1000 / 48000) / (2 * 1))
      by (apply below_nyquist_a0; lra).
    lra.
  - repeat constructor; cbn; unfold APP_SR; lra.
Defined.

(** ** Expander: the target inside the dead zone *)

Lemma gate_target_dead_zone_expander (open_thr close_thr floor_lin ratio g env_db : R) :
  close_thr < env_db < open_thr ->
  gate_target Expander open_thr close_thr floor_lin ratio g env_db
  = Rmax floor_lin (db_to_gain (open_thr + (env_db - open_thr) / ratio - env_db)).
Proof.
  intros [Hc Ho]. unfold gate_target.
  destruct (Rle_dec open_thr env_db); [lra |].
  destruct (Rle_dec env_db close_thr); [lra |]. reflexivity.
Qed.

Lemma expander_gain_db_increasing (open_thr env_db r1 r2 : R) :
  env_db < open_thr -> 1 < r1 < r2 ->
  0 < open_thr + (env_db - open_thr) / r1 - env_db
    < open_thr + (env_db - open_thr) / r2 - env_db.
Proof.
  intros Hd [H1 H12].
  set (d := open_thr - env_db).
  assert (Hdpos : 0 < d) by (unfold d; lra).
  replace (env_db - open_thr) with (- d) by (unfold d; lra).
  assert (Hi1 : / r1 < 1).
  { rewrite <- Rinv_1. apply Rinv_lt_contravar; lra. }
  assert (Hi2 : / r2 < / r1).
  { apply Rinv_lt_contravar; nra. }
  assert (Hp2 : 0 < / r2) by (apply Rinv_0_lt_compat; lra).
  unfold Rdiv. fold d. split.
  - assert (d * / r1 < d * 1) by (apply Rmult_lt_compat_l; lra). unfold d in *. lra.
  - assert (d * / r2 < d * / r1) by (apply Rmult_lt_compat_l; lra). unfold d in *. lra.
Qed.

(** Inside the dead zone the expander target is above unity and grows
    with the ratio, as long as the floor is not above unity. *)
Lemma expander_target_increasing (open_thr close_thr floor_lin g env_db r1 r2 : R) :
  close_thr < env_db < open_thr -> floor_lin <= 1 -> 1 < r1 < r2 ->
  1 < gate_target Expander open_thr close_thr floor_lin r1 g env_db
    < gate_target Expander open_thr close_thr floor_lin r2 g env_db.
Proof.
  intros Hz Hfl Hr.
  rewrite !gate_target_dead_zone_expander by exact Hz.
  destruct (@expander_gain_db_increasing open_thr env_db r1 r2) as [H0 H12];
    [lra | exact Hr |].
  pose proof (db_to_gain_lt H0) as Hg1. rewrite db_to_gain_0 in Hg1.
  pose proof (db_to_gain_lt H12) as Hg2.
  rewrite !Rmax_right by lra. lra.
Qed.

(** C1: the code at a dead-zone level.  With the default thresholds
    (-42 dB, -48 dB) and floor (-40 dB), at an envelope of -45 dB the
    expander target is above unity, and raising the ratio from 2 to 4
    raises it further: the gain is not attenuated, and it is strictly
    increasing in the ratio. *)
Theorem expander_ratio_raises_gain :
  1 < gate_target Expander (-42) (-48) (db_to_gain (-40)) (Rmax 1.001 2) 1 (-45)
    < gate_target Expander (-42) (-48) (db_to_gain (-40)) (Rmax 1.001 4) 1 (-45).
Proof.
  rewrite !Rmax_right by lra.
  apply expander_target_increasing; try lra.
  rewrite <- db_to_gain_0. apply db_to_gain_le. lra.
Qed.

(** ** Comparisons of floats *)

Lemma SFcompare_antisym (x y : float) :
  SpecFloat.SFcompare y x
  = match SpecFloat.SFcompare x y with
    | Some c => Some (CompOpp c)
    | None => None
    end.
Proof.
  destruct x as [sx | sx | | sx mx ex], y as [sy | sy | | sy my ey];
    cbn [SpecFloat.SFcompare]; try reflexivity;
    try (destruct sx; reflexivity);
    try (destruct sy; reflexivity);
    try (destruct sx, sy; reflexivity).
  destruct sx, sy; try reflexivity;
    rewrite (Z.compare_antisym ex ey);
    destruct (ex ?= ey)%Z; cbn [CompOpp]; try reflexivity;
    change (Pos.compare_cont Eq mx my) with (mx ?= my)%positive;
    change (Pos.compare_cont Eq my mx) with (my ?= mx)%positive;
    rewrite (Pos.compare_antisym mx my);
    destruct (mx ?= my)%positive; reflexivity.
Qed.

Lemma SFcompare_lt_gt (x y : float) :
  SpecFloat.SFcompare x y = Some Lt -> SpecFloat.SFcompare y x = Some Gt.
Proof. intros H. rewrite (SFcompare_antisym x y), H. reflexivity. Qed.

(** Two numbers always compare. *)
Lemma SFcompare_number (x y : float) :
  x <> SpecFloat.S754_nan -> y <> SpecFloat.S754_nan ->
  exists c, SpecFloat.SFcompare x y = Some c.
Proof.
  intros Hx Hy.
  destruct x as [sx | sx | | sx mx ex], y as [sy | sy | | sy my ey];
    try contradiction; cbn [SpecFloat.SFcompare]; eexists; reflexivity.
Qed.

Lemma float_lt_false_le (x y : float) :
  x <> SpecFloat.S754_nan -> y <> SpecFloat.S754_nan ->
  float_lt x y = false -> float_le y x = true.
Proof.
  intros Hx Hy. unfold float_lt, float_le, SpecFloat.SFltb, SpecFloat.SFleb.
  rewrite (SFcompare_antisym x y).
  destruct (SFcompare_number Hx Hy) as [c ->].
  destruct c; cbn [CompOpp]; intros H; reflexivity || discriminate.
Qed.

Lemma float_lt_irrefl (x : float) : float_lt x x = false.
Proof.
  unfold float_lt, SpecFloat.SFltb.
  destruct (SpecFloat.SFcompare x x) as [[| |] |] eqn:H; try reflexivity.
  pose proof (SFcompare_lt_gt _ _ H) as H'. congruence.
Qed.

Lemma float_lt_not_le (x y : float) : float_lt x y = true -> float_le y x = false.
Proof.
  unfold float_lt, float_le, SpecFloat.SFltb, SpecFloat.SFleb.
  destruct (SpecFloat.SFcompare x y) as [[| |] |] eqn:H; try discriminate.
  intros _. now rewrite (SFcompare_lt_gt _ _ H).
Qed.

(** In the dead zone the target of [Gate] mode is the gain itself. *)
Lemma gate_target_f64_dead_zone (open_thr close_thr floor_lin g env_db : float) :
  float_lt close_thr env_db = true -> float_lt env_db open_thr = true ->
  gate_target_f64 open_thr close_thr floor_lin g env_db = g.
Proof.
  intros Hc Ho. unfold gate_target_f64.
  now rewrite (float_lt_not_le _ _ Ho), (float_lt_not_le _ _ Hc).
Qed.

(** A target equal to the gain takes the closing blend. *)
Lemma gain_smooth_f64_same (g : float) :
  gain_smooth_f64 g g
  = f64_add (f64_mul (f64_lit 98 100) g) (f64_mul (f64_lit 2 100) g).
Proof. unfold gain_smooth_f64. now rewrite float_lt_irrefl. Qed.

Lemma gate_target_f64_cases (open_thr close_thr floor_lin g env_db : float) :
  gate_target_f64 open_thr close_thr floor_lin g env_db = f64_of_Z 1
  \/ gate_target_f64 open_thr close_thr floor_lin g env_db = floor_lin
  \/ gate_target_f64 open_thr close_thr floor_lin g env_db = g.
Proof.
  unfold gate_target_f64.
  destruct (float_le open_thr env_db); [now left |].
  destruct (float_le env_db close_thr); [right; now left | right; now right].
Qed.

(** ** Gate mode: the dead zone and the range of the gain *)

Lemma gain_smooth_fixed (g : R) : gain_smooth g g = g.
Proof.
  unfold gain_smooth. destruct (Rlt_dec g g); lra.
Qed.

Lemma gate_target_dead_zone_gate (open_thr close_thr floor_lin ratio g env_db : R) :
  close_thr < env_db < open_thr ->
  gate_target Gate open_thr close_thr floor_lin ratio g env_db = g.
Proof.
  intros [Hc Ho]. unfold gate_target.
  destruct (Rle_dec open_thr env_db); [lra |].
  destruct (Rle_dec env_db close_thr); [lra |]. reflexivity.
Qed.

(** C3, as stated, fails in the arithmetic of the program.  Take the
    thresholds and the floor of [__init__]: -42 dB, -48 dB and a linear
    floor of 0.01, with the gain at 1.0.  A first sample of silence
    leaves the level at -160 dB: the gate closes and the gain goes to
    0.9802.  Let the next sample bring the level to -45 dB, inside the
    dead zone: the target is the gain itself, and [0.98 * g + 0.02 * g]
    in binary64 is 0.9801999999999998 (8828856709497119 / 2^53), one
    unit in the last place below [g]. *)
Lemma gate_dead_zone_gain_moves :
  let open_thr := f64_of_Z (-42) in
  let close_thr := f64_of_Z (-48) in
  let floor_lin := f64_lit 1 100 in
  let env_db := f64_of_Z (-45) in
  let g := gate_gain_run_f64 open_thr close_thr floor_lin (f64_of_Z 1) [f64_of_Z (-160)] in
  let g' := gate_gain_run_f64 open_thr close_thr floor_lin g [env_db] in
  float_lt close_thr env_db = true
  /\ float_lt env_db open_thr = true
  /\ g = f64_lit 9802 10000
  /\ gate_target_f64 open_thr close_thr floor_lin g env_db = g
  /\ g' = SpecFloat.S754_finite false 8828856709497119 (-53)
  /\ float_lt g' g = true.
Proof. vm_compute. repeat split. Qed.

(** C3 (amended): in Gate mode, at a sample after whose envelope update
    the level in dB lies strictly between the close and the open
    threshold, the target is the current gain and the closing blend is
    taken.  In exact arithmetic the blend [0.98 * g + 0.02 * g] is [g]:
    the smoothed gain is left as it was.  In the binary64 arithmetic of
    the program the new gain is the rounded blend, which is not always
    [g]: 0.9802 does not come back. *)
Theorem gate_dead_zone_gain_frozen
  (atk rel open_thr close_thr floor_lin ratio envv g xi : R)
  (open_f close_f floor_f g_f env_db_f : float) :
  close_thr < env_to_db (env_update atk rel envv (Rabs xi)) < open_thr ->
  float_lt close_f env_db_f = true ->
  float_lt env_db_f open_f = true ->
  gate_target Gate open_thr close_thr floor_lin ratio g
    (env_to_db (env_update atk rel envv (Rabs xi))) = g
  /\ snd (fst (gate_sample Gate atk rel open_thr close_thr floor_lin ratio envv g xi)) = g
  /\ gate_target_f64 open_f close_f floor_f g_f env_db_f = g_f
  /\ gain_smooth_f64 g_f (gate_target_f64 open_f close_f floor_f g_f env_db_f)
     = f64_add (f64_mul (f64_lit 98 100) g_f) (f64_mul (f64_lit 2 100) g_f)
  /\ gain_smooth_f64 (f64_lit 9802 10000) (f64_lit 9802 10000) <> f64_lit 9802 10000.
Proof.
  intros Hz Hc Ho.
  split; [now apply gate_target_dead_zone_gate |].
  split.
  { unfold gate_sample. cbn [fst snd].
    rewrite gate_target_dead_zone_gate by exact Hz.
    apply gain_smooth_fixed. }
  rewrite (@gate_target_f64_dead_zone open_f close_f floor_f g_f env_db_f Hc Ho).
  split; [reflexivity |]. split; [apply gain_smooth_f64_same |].
  vm_compute. discriminate.
Qed.

Lemma gain_smooth_range (lo g target : R) :
  lo <= g <= 1 -> lo <= target <= 1 -> lo <= gain_smooth g target <= 1.
Proof.
  intros Hg Ht. unfold gain_smooth. destruct (Rlt_dec g target); lra.
Qed.

Lemma gate_target_gate_range (open_thr close_thr floor_lin ratio g env_db : R) :
  floor_lin <= g <= 1 ->
  floor_lin <= gate_target Gate open_thr close_thr floor_lin ratio g env_db <= 1.
Proof.
  intros Hg. unfold gate_target.
  destruct (Rle_dec open_thr env_db); [lra |].
  destruct (Rle_dec env_db close_thr); lra.
Qed.

Lemma gate_loop_gate_range (atk rel open_thr close_thr floor_lin ratio : R) (x : list R) :
  forall envv g,
    floor_lin <= g <= 1 ->
    floor_lin
    <= snd (fst (gate_loop Gate atk rel open_thr close_thr floor_lin ratio envv g x))
    <= 1.
Proof.
  induction x as [| xi rest IH]; intros envv g Hg; [exact Hg |].
  cbn [gate_loop]. unfold gate_sample.
  set (envv' := env_update atk rel envv (Rabs xi)).
  set (g' := gain_smooth g _).
  assert (Hg' : floor_lin <= g' <= 1).
  { apply gain_smooth_range; [exact Hg |]. now apply gate_target_gate_range. }
  specialize (IH envv' g' Hg').
  destruct (gate_loop Gate atk rel open_thr close_thr floor_lin ratio envv' g' rest)
    as [[e2 g2] ys].
  exact IH.
Qed.

(** What [_gate_or_expander] leaves in the engine. *)
Lemma gate_or_expander_state (self : AudioEngine) (x : list R) :
  let r := gate_loop (gate_mode self) (attack_open self) (release_close self)
             (open_thr_db self) (close_thr_db self) (db_to_gain (floor_db self))
             (Rmax 1.001 (expander_ratio self)) (env self) (current_gain self) x in
  _gate_or_expander self x
  = (with_gate_state self (fst (fst r)) (snd (fst r)), snd r).
Proof.
  cbn zeta. unfold _gate_or_expander.
  destruct (gate_loop _ _ _ _ _ _ _ _ _ x) as [[e2 g2] ys]. reflexivity.
Qed.

(** C10, as stated, fails in the arithmetic of the program.  With
    [floor_db = -80] the linear floor [pow(10.0, -80 / 20.0)] is the
    double 1e-4; the thresholds are those of [__init__] and the gain starts at
    1.0.  On silence the level stays at [20 * log10(1e-8) = -160] dB,
    under the close threshold, and the gate closes.  After two blocks
    the gain is still between the floor and 1; the third block takes it
    to 9.999999999999999e-05 (7378697629483820 / 2^66), below the floor,
    where it stays.  The step from the floor itself shows the rounding:
    [0.98 * g + 0.02 * g] at [g = 1e-4] is one unit in the last place
    below [g]. *)
Lemma gate_gain_falls_below_floor :
  let open_thr := f64_of_Z (-42) in
  let close_thr := f64_of_Z (-48) in
  let floor_lin := f64_lit 1 10000 in
  let silence := repeat (f64_of_Z (-160)) 1024 in
  let g2 := gate_gain_run_f64 open_thr close_thr floor_lin (f64_of_Z 1)
              (silence ++ silence) in
  let g3 := gate_gain_run_f64 open_thr close_thr floor_lin g2 silence in
  let g4 := gate_gain_run_f64 open_thr close_thr floor_lin g3 silence in
  (float_le floor_lin g2 = true /\ float_le g2 (f64_of_Z 1) = true)
  /\ g3 = SpecFloat.S754_finite false 7378697629483820 (-66)
  /\ float_lt g3 floor_lin = true
  /\ g4 = g3
  /\ gate_target_f64 open_thr close_thr floor_lin floor_lin (f64_of_Z (-160)) = floor_lin
  /\ gain_smooth_f64 floor_lin floor_lin = g3.
Proof. vm_compute. repeat split. Qed.

(** C10 (amended): in Gate mode every target is 1, the linear floor or
    the current gain.  In exact arithmetic, with a floor of at most
    0 dB, a smoothed gain that lies between the linear floor and 1
    before a block lies between them after it.  In the binary64
    arithmetic of the program the blend is rounded and the lower bound
    is lost: at a floor of 1e-4 the closing blend takes the gain from
    the floor to a value below it. *)
Theorem gate_gain_stays_in_range (self : AudioEngine) (x : list R)
  (open_f close_f floor_f g_f env_db_f : float) :
  gate_mode self = Gate ->
  floor_db self <= 0 ->
  db_to_gain (floor_db self) <= current_gain self <= 1 ->
  db_to_gain (floor_db self) <= 1
  /\ db_to_gain (floor_db self)
     <= current_gain (fst (_gate_or_expander self x))
     <= 1
  /\ floor_db (fst (_gate_or_expander self x)) = floor_db self
  /\ (forall g env_db,
        let target := gate_target Gate (open_thr_db self) (close_thr_db self)
                        (db_to_gain (floor_db self)) (Rmax 1.001 (expander_ratio self))
                        g env_db in
        target = 1 \/ target = db_to_gain (floor_db self) \/ target = g)
  /\ (gate_target_f64 open_f close_f floor_f g_f env_db_f = f64_of_Z 1
      \/ gate_target_f64 open_f close_f floor_f g_f env_db_f = floor_f
      \/ gate_target_f64 open_f close_f floor_f g_f env_db_f = g_f)
  /\ float_lt (gain_smooth_f64 (f64_lit 1 10000) (f64_lit 1 10000)) (f64_lit 1 10000)
     = true.
Proof.
  intros Hm Hfl Hg. split.
  { rewrite <- db_to_gain_0. now apply db_to_gain_le. }
  split.
  { rewrite gate_or_expander_state. cbn [fst current_gain with_gate_state].
    rewrite Hm. now apply gate_loop_gate_range. }
  split.
  { rewrite gate_or_expander_state. reflexivity. }
  split.
  { intros g env_db. cbn zeta. unfold gate_target.
    destruct (Rle_dec (open_thr_db self) env_db); [now left |].
    destruct (Rle_dec env_db (close_thr_db self)); [right; now left | right; now right]. }
  split; [apply gate_target_f64_cases |].
  vm_compute. reflexivity.
Qed.

(** ** The envelope follower *)

Lemma gate_loop_env (m : mode) (atk rel open_thr close_thr floor_lin ratio : R)
  (x : list R) :
  forall envv g,
    fst (fst (gate_loop m atk rel open_thr close_thr floor_lin ratio envv g x))
    = env_run atk rel envv x.
Proof.
  induction x as [| xi rest IH]; intros envv g; [reflexivity |].
  cbn [gate_loop env_run]. unfold gate_sample.
  set (envv' := env_update atk rel envv (Rabs xi)).
  set (g' := gain_smooth g _).
  specialize (IH envv' g').
  destruct (gate_loop m atk rel open_thr close_thr floor_lin ratio envv' g' rest)
    as [[e2 g2] ys].
  exact IH.
Qed.

Lemma env_update_contraction (atk rel envv a : R) :
  0 <= atk -> 0 <= rel ->
  Rabs (env_update atk rel envv a - a) <= Rmax atk rel * Rabs (envv - a).
Proof.
  intros Ha Hr. unfold env_update.
  pose proof (Rabs_pos (envv - a)) as Hpos.
  destruct (Rlt_dec envv a).
  - replace (atk * envv + (1 - atk) * a - a) with (atk * (envv - a)) by ring.
    rewrite Rabs_mult, (Rabs_right atk) by lra.
    apply Rmult_le_compat_r; [exact Hpos | apply Rmax_l].
  - replace (rel * envv + (1 - rel) * a - a) with (rel * (envv - a)) by ring.
    rewrite Rabs_mult, (Rabs_right rel) by lra.
    apply Rmult_le_compat_r; [exact Hpos | apply Rmax_r].
Qed.

Lemma env_run_contraction (atk rel a : R) (x : list R) :
  0 <= atk -> 0 <= rel ->
  Forall (fun xi => Rabs xi = a) x ->
  forall envv,
    Rabs (env_run atk rel envv x - a) <= Rmax atk rel ^ length x * Rabs (envv - a).
Proof.
  intros Ha Hr Hx. induction Hx as [| xi rest Hxi _ IH]; intros envv.
  - cbn. lra.
  - cbn [env_run length pow]. rewrite Hxi.
    eapply Rle_trans; [apply IH |].
    assert (Hc : 0 <= Rmax atk rel) by (eapply Rle_trans; [exact Ha | apply Rmax_l]).
    assert (Hp : 0 <= Rmax atk rel ^ length rest) by (apply pow_le; exact Hc).
    pose proof (@env_update_contraction atk rel envv a Ha Hr) as Hstep.
    replace (Rmax atk rel * Rmax atk rel ^ length rest * Rabs (envv - a))
      with (Rmax atk rel ^ length rest * (Rmax atk rel * Rabs (envv - a))) by ring.
    apply Rmult_le_compat_l; assumption.
Qed.

Lemma time_coeff_range (ms : R) :
  0 < ms -> 0 < exp (-1 / (APP_SR * (ms / 1000))) < 1.
Proof.
  intros Hms. split; [apply exp_pos |].
  rewrite <- exp_0. apply exp_increasing.
  assert (Hd : 0 < APP_SR * (ms / 1000)) by (unfold APP_SR; lra).
  unfold Rdiv at 1. pose proof (Rinv_0_lt_compat _ Hd). lra.
Qed.

Lemma env_run_app (atk rel : R) (x1 x2 : list R) :
  forall envv,
    env_run atk rel envv (x1 ++ x2) = env_run atk rel (env_run atk rel envv x1) x2.
Proof.
  induction x1 as [| xi rest IH]; intros envv; [reflexivity |].
  cbn [app env_run]. apply IH.
Qed.

Lemma gate_or_expander_env (self : AudioEngine) (x : list R) :
  env (fst (_gate_or_expander self x))
  = env_run (attack_open self) (release_close self) (env self) x.
Proof.
  rewrite gate_or_expander_state. cbn [fst env with_gate_state].
  apply gate_loop_env.
Qed.

(** The envelope carries over from one block to the next: two blocks in
    a row drive it as their concatenation does. *)
Lemma gate_or_expander_env_blocks (self : AudioEngine) (x1 x2 : list R) :
  env (fst (_gate_or_expander (fst (_gate_or_expander self x1)) x2))
  = env (fst (_gate_or_expander self (x1 ++ x2))).
Proof.
  rewrite !gate_or_expander_env, env_run_app.
  rewrite gate_or_expander_state. reflexivity.
Qed.

(** C7, as stated, fails in the arithmetic of the program: the rounded
    update has fixed points other than the level of the input, and there
    the envelope stalls.  Take the coefficients of [__init__] and a
    constant magnitude of 0.5.  In float32 the envelope of the engine as
    constructed, 0.0, has risen after 2048 samples to 0.4999978542327881
    (16777144 / 2^25) and no further sample moves it; coming from above
    it stalls at 0.5001716613769531 (8391488 / 2^24).  In binary64 the
    fixed points 0.499999999999996 (9007199254740920 / 2^54) and
    0.5000000000004796 (4503599627374816 / 2^53) do the same.  At a fixed
    point other than the level the distance does not shrink, so the
    update is not a contraction. *)
Lemma envelope_stalls_short_of_level :
  let atk := attack_open_f64 in
  let rel := release_close_f64 in
  let a32 := f32_of_f64 (f64_lit 1 2) in
  let a64 := f64_lit 1 2 in
  let low32 := SpecFloat.S754_finite false 16777144 (-25) in
  let high32 := SpecFloat.S754_finite false 8391488 (-24) in
  let low64 := SpecFloat.S754_finite false 9007199254740920 (-54) in
  let high64 := SpecFloat.S754_finite false 4503599627374816 (-53) in
  env_run_f32 atk rel (f64_of_Z 0) (repeat a32 2048) = low32
  /\ env_update_f32 atk rel low32 a32 = low32
  /\ float_lt low32 a32 = true
  /\ env_update_f32 atk rel high32 a32 = high32
  /\ float_lt a32 high32 = true
  /\ env_update_f64 atk rel low64 a64 = low64
  /\ float_lt low64 a64 = true
  /\ env_update_f64 atk rel high64 a64 = high64
  /\ float_lt a64 high64 = true.
Proof. vm_compute. repeat split. Qed.

(** C7 (amended): with the coefficients of [_update_time_consts], on
    input of constant magnitude [a], in exact arithmetic each envelope
    update is a contraction toward [a] by the factor
    [c = max(attack_open, release_close) < 1]; over a run of [n] such
    samples the distance shrinks by [c ^ n], so from any starting
    envelope the envelope converges to [a].  In the float arithmetic of
    the program the rounded update has fixed points other than [a]: with
    the coefficients of [__init__] and [a = 0.5], the envelope stays at
    0.5001716613769531 in float32 and at 0.5000000000004796 in
    binary64. *)
Theorem envelope_converges (self : AudioEngine) (a : R) :
  time_consts_ok self ->
  let c := Rmax (attack_open self) (release_close self) in
  0 < c < 1
  /\ (forall envv,
         Rabs (env_update (attack_open self) (release_close self) envv a - a)
         <= c * Rabs (envv - a))
  /\ (forall x,
         Forall (fun xi => Rabs xi = a) x ->
         Rabs (env (fst (_gate_or_expander self x)) - a)
         <= c ^ length x * Rabs (env self - a))
  /\ (forall eps,
         0 < eps ->
         exists N : nat,
           forall x,
             Forall (fun xi => Rabs xi = a) x ->
             (N <= length x)%nat ->
             Rabs (env (fst (_gate_or_expander self x)) - a) < eps)
  /\ (let a32 := f32_of_f64 (f64_lit 1 2) in
      let e32 := SpecFloat.S754_finite false 8391488 (-24) in
      env_update_f32 attack_open_f64 release_close_f64 e32 a32 = e32
      /\ float_lt a32 e32 = true)
  /\ (let a64 := f64_lit 1 2 in
      let e64 := SpecFloat.S754_finite false 4503599627374816 (-53) in
      env_update_f64 attack_open_f64 release_close_f64 e64 a64 = e64
      /\ float_lt a64 e64 = true).
Proof.
  intros (Hams & Hrms & Hatk & Hrel) c.
  pose proof (time_coeff_range Hams) as Ha. rewrite <- Hatk in Ha.
  pose proof (time_coeff_range Hrms) as Hr. rewrite <- Hrel in Hr.
  assert (Hc : 0 < c < 1).
  { unfold c. split.
    - eapply Rlt_le_trans; [apply Ha | apply Rmax_l].
    - apply Rmax_lub_lt; lra. }
  assert (Hblock : forall x,
             Forall (fun xi => Rabs xi = a) x ->
             Rabs (env (fst (_gate_or_expander self x)) - a)
             <= c ^ length x * Rabs (env self - a)).
  { intros x Hx. rewrite gate_or_expander_env.
    apply env_run_contraction; [lra | lra | exact Hx]. }
  split; [exact Hc |]. split; [| split; [exact Hblock |]].
  - intros envv. apply env_update_contraction; lra.
  - split; [| split; vm_compute; split; reflexivity].
    intros eps Heps.
    set (D := Rabs (env self - a)).
    assert (HD : 0 <= D) by apply Rabs_pos.
    destruct (@pow_lt_1_zero c) with (y := eps / (D + 1)) as [N HN].
    { rewrite Rabs_right; lra. }
    { apply Rdiv_lt_0_compat; lra. }
    exists N. intros x Hx Hlen.
    eapply Rle_lt_trans; [apply Hblock; exact Hx |]. fold D.
    specialize (HN (length x) Hlen).
    assert (Hp : 0 <= c ^ length x) by (apply pow_le; lra).
    rewrite Rabs_right in HN by lra.
    assert (Hmul : c ^ length x * (D + 1) < eps / (D + 1) * (D + 1)).
    { apply Rmult_lt_compat_r; lra. }
    replace (eps / (D + 1) * (D + 1)) with eps in Hmul by (field; lra).
    nra.
Qed.

Lemma envelope_converges_witness :
  after_init (fun self =>
    time_consts_ok self
    /\ forall x,
         Forall (fun xi => Rabs xi = 1 / 100) x ->
         Rabs (env (fst (_gate_or_expander self x)) - 1 / 100)
         <= Rmax (attack_open self) (release_close self) ^ length x
            * Rabs (env self - 1 / 100)).
Proof.
  apply after_init_intro. intros self Hc.
  split; [apply (ac_time_consts Hc) |].
  apply (envelope_converges (1 / 100) (ac_time_consts Hc)).
Defined.

(** ** Round trip between linear level and dB *)

Lemma log10_db_to_gain (db : R) : 20 * log10 (db_to_gain db) = db.
Proof.
  unfold log10, db_to_gain, Rpower. rewrite ln_exp.
  pose proof ln_10_pos. field. lra.
Qed.

Lemma db_to_gain_minus_160 : db_to_gain (-160) = 1e-8.
Proof.
  unfold db_to_gain. replace (-160 / 20) with (- INR 8) by (cbn; lra).
  rewrite Rpower_Ropp, Rpower_pow by lra. lra.
Qed.

Lemma env_to_db_db_to_gain (db : R) :
  -160 <= db -> env_to_db (db_to_gain db) = db.
Proof.
  intros Hdb. unfold env_to_db.
  rewrite Rmax_left.
  - apply log10_db_to_gain.
  - rewrite <- db_to_gain_minus_160. now apply db_to_gain_le.
Qed.

Lemma env_update_same (atk rel e : R) : env_update atk rel e e = e.
Proof. unfold env_update. destruct (Rlt_dec e e); lra. Qed.

Lemma gate_dead_zone_gain_frozen_witness :
  (-48 < env_to_db (env_update (1 / 2) (1 / 2) (db_to_gain (-45)) (Rabs (db_to_gain (-45)))) < -42
   /\ float_lt (f64_of_Z (-48)) (f64_of_Z (-45)) = true
   /\ float_lt (f64_of_Z (-45)) (f64_of_Z (-42)) = true)
  /\ snd (fst (gate_sample Gate (1 / 2) (1 / 2) (-42) (-48) (db_to_gain (-40)) 4
                 (db_to_gain (-45)) (1 / 2) (db_to_gain (-45)))) = 1 / 2
  /\ gain_smooth_f64 (f64_lit 1 2)
       (gate_target_f64 (f64_of_Z (-42)) (f64_of_Z (-48)) (f64_lit 1 100)
          (f64_lit 1 2) (f64_of_Z (-45)))
     = f64_add (f64_mul (f64_lit 98 100) (f64_lit 1 2))
               (f64_mul (f64_lit 2 100) (f64_lit 1 2)).
Proof.
  assert (H : -48 < env_to_db (env_update (1 / 2) (1 / 2) (db_to_gain (-45))
                                 (Rabs (db_to_gain (-45)))) < -42).
  { rewrite Rabs_right by (left; apply db_to_gain_pos).
    rewrite env_update_same, env_to_db_db_to_gain; lra. }
  assert (Hc : float_lt (f64_of_Z (-48)) (f64_of_Z (-45)) = true) by reflexivity.
  assert (Ho : float_lt (f64_of_Z (-45)) (f64_of_Z (-42)) = true) by reflexivity.
  split; [auto |].
  destruct (@gate_dead_zone_gain_frozen (1 / 2) (1 / 2) (-42) (-48) (db_to_gain (-40)) 4
              (db_to_gain (-45)) (1 / 2) (db_to_gain (-45))
              (f64_of_Z (-42)) (f64_of_Z (-48)) (f64_lit 1 100) (f64_lit 1 2)
              (f64_of_Z (-45)) H Hc Ho) as (_ & Hg & _ & Hb & _).
  split; assumption.
Defined.

Lemma gate_gain_stays_in_range_witness :
  after_init (fun self =>
    (gate_mode self = Gate /\ floor_db self <= 0
     /\ db_to_gain (floor_db self) <= current_gain self <= 1)
    /\ db_to_gain (floor_db self)
       <= current_gain (fst (_gate_or_expander self [1 / 2; - (1 / 1000)]))
       <= 1).
Proof.
  apply after_init_intro. intros self Hc.
  assert (Hm : gate_mode self = Gate) by apply (ac_gate_mode Hc).
  assert (Hf : floor_db self <= 0) by (rewrite (ac_floor_db Hc); lra).
  assert (Hg : db_to_gain (floor_db self) <= current_gain self <= 1).
  { rewrite (ac_current_gain Hc). split; [| lra].
    rewrite <- db_to_gain_0. now apply db_to_gain_le. }
  split; [auto |].
  exact (proj1 (proj2 (@gate_gain_stays_in_range self [1 / 2; - (1 / 1000)]
                         (f64_of_Z (-42)) (f64_of_Z (-48)) (f64_lit 1 100)
                         (f64_of_Z 1) (f64_of_Z (-160)) Hm Hf Hg))).
Defined.

(** ** Blocks keep their length through the chain *)

Lemma biquad_loop_length (c0 c1 c2 d1 d2 : R) (x : list R) :
  forall s1 s2, length (snd (biquad_loop c0 c1 c2 d1 d2 s1 s2 x)) = length x.
Proof.
  induction x as [| xi rest IH]; intros s1 s2; [reflexivity |].
  cbn [biquad_loop].
  specialize (IH (xi - d1 * s1 - d2 * s2) s1).
  destruct (biquad_loop c0 c1 c2 d1 d2 (xi - d1 * s1 - d2 * s2) s1 rest) as [[t1 t2] ys].
  cbn in *. now rewrite IH.
Qed.

Lemma process_inplace_length (biq : Biquad) (x : list R) :
  length (snd (process_inplace biq x)) = length x.
Proof.
  unfold process_inplace.
  pose proof (biquad_loop_length (b0 biq) (b1 biq) (b2 biq) (a1 biq) (a2 biq)
                x (z1 biq) (z2 biq)) as H.
  destruct (biquad_loop _ _ _ _ _ _ _ x) as [[t1 t2] ys]. exact H.
Qed.

Lemma eq_chain_length (filters : list Biquad) :
  forall buf, length (snd (eq_chain filters buf)) = length buf.
Proof.
  induction filters as [| biq rest IH]; intros buf; [reflexivity |].
  cbn [eq_chain].
  pose proof (process_inplace_length biq buf) as Hp.
  destruct (process_inplace biq buf) as [biq' buf1]. cbn in Hp.
  specialize (IH buf1). destruct (eq_chain rest buf1) as [rest' buf2].
  cbn in *. congruence.
Qed.

Lemma gate_loop_length (m : mode) (atk rel open_thr close_thr floor_lin ratio : R)
  (x : list R) :
  forall envv g,
    length (snd (gate_loop m atk rel open_thr close_thr floor_lin ratio envv g x))
    = length x.
Proof.
  induction x as [| xi rest IH]; intros envv g; [reflexivity |].
  cbn [gate_loop]. unfold gate_sample.
  set (envv' := env_update atk rel envv (Rabs xi)).
  set (g' := gain_smooth g _).
  specialize (IH envv' g').
  destruct (gate_loop m atk rel open_thr close_thr floor_lin ratio envv' g' rest)
    as [[e2 g2] ys].
  cbn in *. now rewrite IH.
Qed.

Lemma gate_or_expander_length (self : AudioEngine) (x : list R) :
  length (snd (_gate_or_expander self x)) = length x.
Proof.
  rewrite gate_or_expander_state. cbn [snd]. apply gate_loop_length.
Qed.

(** ** The callback, case by case *)

Section CallbackFacts.

Variable f32 : byte -> byte -> byte -> byte -> R.

Lemma frombuffer_length (n : nat) :
  forall b, length b = (n * 4)%nat ->
            exists buf, frombuffer f32 b = Returns buf /\ length buf = n.
Proof.
  induction n as [| n IH]; intros b Hb.
  - destruct b; [| discriminate]. exists []. auto.
  - destruct b as [| c0 [| c1 [| c2 [| c3 rest]]]]; try discriminate.
    cbn in Hb. destruct (IH rest) as (buf & Hf & Hl); [lia |].
    cbn [frombuffer]. rewrite Hf. cbn [mbind outcome_bind mret outcome_ret].
    eexists. split; [reflexivity |]. cbn. now rewrite Hl.
Qed.

Lemma frombuffer_repeat (c : byte) (n : nat) :
  frombuffer f32 (repeat c (n * 4)) = Returns (repeat (f32 c c c c) n).
Proof.
  induction n as [| n IH]; [reflexivity |].
  cbn [Nat.mul Nat.add repeat frombuffer]. rewrite IH. reflexivity.
Qed.

(** The callback does nothing but emit silence while paused. *)
Lemma callback_paused (self : AudioEngine) (frames : nat) :
  paused_flag self = true ->
  _callback f32 self frames = mkCb self (Returns (repeat 0 frames)) 0.
Proof. intros Hp. unfold _callback. now rewrite Hp. Qed.

Lemma callback_empty (self : AudioEngine) (frames : nat) :
  paused_flag self = false -> q self = [] ->
  _callback f32 self frames = mkCb self (Returns (repeat 0 frames)) 0.2.
Proof.
  intros Hp Hq. unfold _callback. rewrite Hp, Hq. cbn [q_get].
  f_equal. destruct self. cbn in Hq. subst. reflexivity.
Qed.

Lemma callback_sentinel (self : AudioEngine) (frames : nat) (it : item) (rest : list item) :
  paused_flag self = false -> q self = it :: rest ->
  (it = EndOfStream \/ exists msg, it = ErrorItem msg) ->
  _callback f32 self frames = mkCb (with_q self rest) (Returns (repeat 0 frames)) 0.
Proof.
  intros Hp Hq Hit. unfold _callback. rewrite Hp, Hq. cbn [q_get].
  destruct Hit as [-> | [msg ->]]; reflexivity.
Qed.

(** Whatever is at the head of the queue, an invocation that is not
    paused takes it out. *)
Lemma callback_pulls (self : AudioEngine) (frames : nat) (it : item) (rest : list item) :
  paused_flag self = false -> q self = it :: rest ->
  q (cb_self (_callback f32 self frames)) = rest.
Proof.
  intros Hp Hq. unfold _callback. rewrite Hp, Hq. cbn [q_get].
  destruct it as [b | msg |]; try reflexivity.
  destruct (frombuffer f32 b) as [buf | e]; [| reflexivity].
  cbn [gate_enabled with_q].
  destruct (gate_enabled self).
  - rewrite gate_or_expander_state.
    destruct (eq_chain _ _) as [filters buf2]. reflexivity.
  - destruct (eq_chain _ _) as [filters buf2]. reflexivity.
Qed.

(** The callback on a frame that decodes to [buf]. *)
Lemma callback_frame (self : AudioEngine) (frames : nat) (b : list byte)
  (rest : list item) (buf : list R) :
  paused_flag self = false -> q self = Frame b :: rest ->
  frombuffer f32 b = Returns buf ->
  let self1 := with_q self rest in
  let gated := if gate_enabled self then _gate_or_expander self1 buf else (self1, buf) in
  let eqd := eq_chain (eq_filters self) (snd gated) in
  _callback f32 self frames
  = mkCb (with_eq_filters (fst gated) (fst eqd))
         (assign_outdata frames
            (map clip (map (fun v => v * master_gain self) (snd eqd))))
         0.
Proof.
  intros Hp Hq Hb. cbn zeta. unfold _callback. rewrite Hp, Hq. cbn [q_get].
  rewrite Hb. cbn [gate_enabled with_q].
  destruct (gate_enabled self).
  - rewrite gate_or_expander_state. cbn [fst snd eq_filters with_gate_state with_q].
    destruct (eq_chain _ _) as [filters buf2]. reflexivity.
  - cbn [fst snd eq_filters with_q].
    destruct (eq_chain _ _) as [filters buf2]. reflexivity.
Qed.

(** With the gate on, the envelope after a frame is the one the
    follower reaches over the decoded samples. *)
Lemma callback_frame_env (self : AudioEngine) (frames : nat) (b : list byte)
  (rest : list item) (buf : list R) :
  paused_flag self = false -> q self = Frame b :: rest ->
  frombuffer f32 b = Returns buf ->
  gate_enabled self = true ->
  env (cb_self (_callback f32 self frames))
  = env_run (attack_open self) (release_close self) (env self) buf.
Proof.
  intros Hp Hq Hb Hg.
  rewrite (@callback_frame self frames b rest buf Hp Hq Hb), Hg.
  cbn [cb_self env with_eq_filters]. rewrite gate_or_expander_env. reflexivity.
Qed.

(** A frame of [frames * 4] bytes always makes a full output block. *)
Lemma callback_frame_returns (self : AudioEngine) (frames : nat) (b : list byte)
  (rest : list item) :
  paused_flag self = false -> q self = Frame b :: rest ->
  length b = (frames * 4)%nat ->
  exists out,
    cb_outdata (_callback f32 self frames) = Returns out /\ length out = frames.
Proof.
  intros Hp Hq Hlen.
  destruct (frombuffer_length frames b Hlen) as (buf & Hb & Hl).
  rewrite (@callback_frame self frames b rest buf Hp Hq Hb). cbn [cb_outdata].
  set (out := map clip _).
  assert (Hout : length out = frames).
  { unfold out. rewrite !length_map, eq_chain_length.
    destruct (gate_enabled self); cbn [snd]; [| exact Hl].
    now rewrite gate_or_expander_length. }
  exists out. split; [| exact Hout].
  unfold assign_outdata. rewrite Hout, Nat.eqb_refl. reflexivity.
Qed.

End CallbackFacts.

Lemma start_as_constructed (self : AudioEngine) :
  as_constructed self ->
  start self
  = with_stream (with_paused_flag (with_stop_event self false) false)
      (Some (mkOutputStream APP_SR 1 BLOCK)).
Proof. intros Hc. unfold start. now rewrite (ac_stream Hc). Qed.


(** C8: when the queue is empty and the stream is not paused, the
    [get] of the callback times out; the callback then fills the whole
    output block with zeros, returns without raising, leaves the engine
    as it was, and has blocked for the 0.2 s of the timeout and no
    longer. *)
Theorem callback_timeout_silence
  (f32 : byte -> byte -> byte -> byte -> R) (self : AudioEngine) (frames : nat) :
  paused_flag self = false -> q self = [] ->
  cb_outdata (_callback f32 self frames) = Returns (repeat 0 frames)
  /\ length (repeat 0 frames) = frames
  /\ cb_self (_callback f32 self frames) = self
  /\ cb_blocked (_callback f32 self frames) = 0.2.
Proof.
  intros Hp Hq. rewrite (@callback_empty f32 self frames Hp Hq).
  cbn [cb_outdata cb_self cb_blocked]. rewrite repeat_length. auto.
Qed.

Lemma callback_timeout_silence_witness :
  after_init (fun self =>
    (paused_flag (start self) = false /\ q (start self) = [])
    /\ cb_outdata (_callback (fun _ _ _ _ => 0) (start self) BLOCK)
       = Returns (repeat 0 BLOCK)).
Proof.
  apply after_init_intro. intros self Hc.
  assert (Hp : paused_flag (start self) = false)
    by (rewrite (start_as_constructed Hc); reflexivity).
  assert (Hq : q (start self) = [])
    by (rewrite (start_as_constructed Hc); cbn; apply (ac_q Hc)).
  split; [auto |].
  exact (proj1 (@callback_timeout_silence (fun _ _ _ _ => 0) (start self) BLOCK Hp Hq)).
Defined.




(** ** Stop *)

Lemma stop_no_fault (self : AudioEngine) :
  stop self None
  = (with_q (with_stream (with_stop_event self true) None) [], Returns tt).
Proof. unfold stop. destruct (stream (with_stop_event self true)); reflexivity. Qed.

Lemma stop_no_fault_facts (self : AudioEngine) :
  snd (stop self None) = Returns tt
  /\ q (fst (stop self None)) = []
  /\ env (fst (stop self None)) = env self.
Proof. rewrite stop_no_fault. cbn. auto. Qed.

Lemma env_update_pos (atk rel envv s : R) :
  0 < atk < 1 -> 0 < rel < 1 -> 0 <= envv -> 0 < s ->
  0 < env_update atk rel envv s.
Proof.
  intros Ha Hr He Hs. unfold env_update. destruct (Rlt_dec envv s); nra.
Qed.

Lemma env_run_pos (atk rel : R) (x : list R) :
  0 < atk < 1 -> 0 < rel < 1 ->
  Forall (fun xi => 0 < Rabs xi) x ->
  forall envv, 0 < envv -> 0 < env_run atk rel envv x.
Proof.
  intros Ha Hr Hx. induction Hx as [| xi rest Hxi _ IH]; intros envv He.
  - exact He.
  - cbn [env_run]. apply IH. apply env_update_pos; lra.
Qed.

Lemma Forall_repeat {A : Type} (P : A -> Prop) (v : A) (n : nat) :
  P v -> Forall P (repeat v n).
Proof. intros Hv. induction n; cbn; constructor; assumption. Qed.

Lemma env_run_repeat_pos (atk rel envv v : R) (n : nat) :
  0 < atk < 1 -> 0 < rel < 1 -> 0 <= envv -> 0 < v -> (0 < n)%nat ->
  0 < env_run atk rel envv (repeat v n).
Proof.
  intros Ha Hr He Hv Hn. destruct n as [| n]; [lia |]. cbn [repeat env_run].
  assert (Habs : 0 < Rabs v) by (rewrite Rabs_right; lra).
  apply env_run_pos; try assumption.
  - now apply Forall_repeat.
  - now apply env_update_pos.
Qed.

Lemma time_consts_ok_range (self : AudioEngine) :
  time_consts_ok self ->
  0 < attack_open self < 1 /\ 0 < release_close self < 1.
Proof.
  intros (Ha & Hr & -> & ->). split; now apply time_coeff_range.
Qed.

(** C2, as stated, fails: [stop] does not touch the gate state.  A
    started engine with the gate on plays one frame of full-scale
    samples and is stopped: the queue is empty, the envelope is not
    back at 0. *)
Lemma stop_keeps_envelope :
  after_init (fun self =>
    let f32 := fun _ _ _ _ : byte => 1 in
    let self0 :=
      with_q (set_gate_enabled (start self) true) [Frame (repeat x00 (BLOCK * 4))] in
    let self1 := cb_self (_callback f32 self0 BLOCK) in
    snd (stop self1 None) = Returns tt
    /\ q (fst (stop self1 None)) = []
    /\ env (fst (stop self1 None)) <> 0).
Proof.
  apply after_init_intro. intros self Hc. cbn zeta.
  rewrite (start_as_constructed Hc).
  set (f32 := fun _ _ _ _ : byte => 1).
  set (self0 := with_q _ _).
  assert (Hp : paused_flag self0 = false) by reflexivity.
  assert (Hq : q self0 = Frame (repeat x00 (BLOCK * 4)) :: []) by reflexivity.
  assert (Hg : gate_enabled self0 = true) by reflexivity.
  assert (Hatk : attack_open self0 = attack_open self) by reflexivity.
  assert (Hrel : release_close self0 = release_close self) by reflexivity.
  assert (Henv : env self0 = 0) by apply (ac_env Hc).
  pose proof (@callback_frame_env f32 self0 BLOCK _ _ _ Hp Hq
                (frombuffer_repeat f32 x00 BLOCK) Hg) as Hcb.
  rewrite Hatk, Hrel, Henv in Hcb.
  destruct (stop_no_fault_facts (cb_self (_callback f32 self0 BLOCK)))
    as (Hret & Hempty & Hkeep).
  split; [exact Hret |]. split; [exact Hempty |].
  rewrite Hkeep, Hcb.
  destruct (time_consts_ok_range (ac_time_consts Hc)) as [Ha Hr].
  unfold f32. apply Rgt_not_eq, Rlt_gt.
  apply env_run_repeat_pos; [assumption | assumption | lra | lra | apply BLOCK_pos].
Qed.

(** C2 (amended): after [stop] returns, the queue holds no items and the
    stream handle is cleared; the envelope and the smoothed gain of the
    gate are what they were before the call. *)
Theorem stop_clears_queue_keeps_gate_state (self : AudioEngine) (fault : option exn) :
  snd (stop self fault) = Returns tt ->
  q (fst (stop self fault)) = []
  /\ stream (fst (stop self fault)) = None
  /\ env (fst (stop self fault)) = env self
  /\ current_gain (fst (stop self fault)) = current_gain self.
Proof.
  unfold stop. cbn [stream with_stop_event].
  destruct (stream self) as [s |], fault as [e |]; cbn; intros H;
    try discriminate; auto.
Qed.

Lemma stop_clears_queue_keeps_gate_state_witness :
  after_init (fun self =>
    let self0 := with_q (start self) [EndOfStream] in
    snd (stop self0 None) = Returns tt
    /\ q (fst (stop self0 None)) = []
    /\ env (fst (stop self0 None)) = 0
    /\ current_gain (fst (stop self0 None)) = 1).
Proof.
  apply after_init_intro. intros self Hc. cbn zeta.
  rewrite (start_as_constructed Hc).
  set (self0 := with_q _ _).
  assert (Hr : snd (stop self0 None) = Returns tt) by (rewrite stop_no_fault; reflexivity).
  split; [exact Hr |].
  destruct (@stop_clears_queue_keeps_gate_state self0 None Hr) as (Hq & _ & He & Hg).
  split; [exact Hq |]. split.
  - rewrite He. apply (ac_env Hc).
  - rewrite Hg. apply (ac_current_gain Hc).
Defined.

(** ** The decode producer *)

Lemma BLOCK_bytes : (BLOCK * 4 = 4096)%nat.
Proof. rewrite BLOCK_eq. reflexivity. Qed.

Lemma split_frames_full (leftover : list byte) :
  Forall (fun frame => length frame = (BLOCK * 4)%nat) (fst (split_frames leftover)).
Proof.
  funelim (split_frames leftover).
  - cbn [fst]. constructor; [| assumption].
    rewrite length_take. lia.
  - cbn [fst]. constructor.
Qed.

(** Nothing is lost or reordered by the framing, and the bytes kept
    back are fewer than a frame. *)
Lemma split_frames_concat (leftover : list byte) :
  concat (fst (split_frames leftover)) ++ snd (split_frames leftover) = leftover
  /\ (length (snd (split_frames leftover)) < BLOCK * 4)%nat.
Proof.
  funelim (split_frames leftover).
  - cbn [fst snd concat]. destruct H as [Hc Hl]. split; [| exact Hl].
    rewrite <- app_assoc, Hc. apply take_drop.
  - cbn [fst snd concat]. split; [reflexivity | assumption].
Qed.

Lemma split_frames_short (leftover : list byte) :
  (length leftover < BLOCK * 4)%nat -> split_frames leftover = ([], leftover).
Proof.
  intros Hlen. rewrite split_frames_equation_1.
  destruct (le_lt_dec (BLOCK * 4) (length leftover)) as [Hle | Hlt]; [lia |].
  reflexivity.
Qed.

Lemma split_frames_exact (frame : list byte) :
  length frame = (BLOCK * 4)%nat -> split_frames frame = ([frame], []).
Proof.
  intros Hlen. pose proof BLOCK_pos as Hb.
  rewrite split_frames_equation_1.
  destruct (le_lt_dec (BLOCK * 4) (length frame)) as [Hle | Hlt]; [| lia].
  cbn [split_frames_unfold_clause_1].
  rewrite take_ge, drop_ge by lia.
  rewrite split_frames_short by (cbn; lia). reflexivity.
Qed.

Lemma reader_loop_read (chunk : list byte) (evs : list reader_event) (leftover : list byte) :
  chunk <> [] ->
  reader_loop (Read chunk :: evs) leftover
  = map Frame (fst (split_frames (leftover ++ chunk)))
    ++ reader_loop evs (snd (split_frames (leftover ++ chunk))).
Proof. intros Hne. destruct chunk; [contradiction | reflexivity]. Qed.

Lemma reader_loop_frames (evs : list reader_event) :
  forall leftover it,
    In it (reader_loop evs leftover) ->
    exists b, it = Frame b /\ length b = (BLOCK * 4)%nat.
Proof.
  induction evs as [| ev evs IH]; intros leftover it Hin; [destruct Hin |].
  destruct ev as [| chunk |]; cbn [reader_loop] in Hin.
  - eapply IH; exact Hin.
  - destruct chunk as [| c chunk]; [destruct Hin |].
    apply in_app_or in Hin. destruct Hin as [Hin | Hin].
    + apply in_map_iff in Hin. destruct Hin as (b & <- & Hb).
      exists b. split; [reflexivity |].
      pose proof (split_frames_full (leftover ++ c :: chunk)) as Hall.
      rewrite List.Forall_forall in Hall. now apply Hall.
    + eapply IH; exact Hin.
  - destruct Hin.
Qed.

(** C9: every frame the producer puts into the queue is exactly
    [BLOCK * 4 = 4096] bytes, it decodes to [BLOCK = 1024] samples, and
    the callback that pops it, on the stream's block size, returns a
    full output block without raising. *)
Theorem producer_frames_are_full_blocks
  (f32 : byte -> byte -> byte -> byte -> R)
  (popen_error : option string) (evs : list reader_event) (b : list byte) :
  In (Frame b) (run popen_error evs) ->
  length b = (BLOCK * 4)%nat
  /\ length b = 4096%nat
  /\ (exists buf, frombuffer f32 b = Returns buf /\ length buf = BLOCK)
  /\ forall self rest,
       paused_flag self = false -> q self = Frame b :: rest ->
       exists out,
         cb_outdata (_callback f32 self BLOCK) = Returns out /\ length out = BLOCK.
Proof.
  intros Hin.
  assert (Hlen : length b = (BLOCK * 4)%nat).
  { unfold run in Hin. destruct popen_error as [msg |].
    - destruct Hin as [Hin | []]. discriminate.
    - apply in_app_or in Hin. destruct Hin as [Hin | [Hin | []]]; [| discriminate].
      apply reader_loop_frames in Hin. destruct Hin as (b' & [= ->] & Hb). exact Hb. }
  split; [exact Hlen |]. split; [now rewrite Hlen, BLOCK_bytes |].
  split; [now apply frombuffer_length |].
  intros self rest Hp Hq. now apply callback_frame_returns with b rest.
Qed.

Lemma producer_frames_are_full_blocks_witness :
  In (Frame (repeat x00 (BLOCK * 4)))
     (run None [Read (repeat x00 (BLOCK * 4)); PausedTick; Read [x00; x01]])
  /\ length (repeat x00 (BLOCK * 4)) = 4096%nat.
Proof.
  assert (Hin : In (Frame (repeat x00 (BLOCK * 4)))
                  (run None [Read (repeat x00 (BLOCK * 4)); PausedTick;
                             Read [x00; x01]])).
  { unfold run. apply in_or_app. left.
    rewrite reader_loop_read.
    - rewrite app_nil_l, split_frames_exact by apply repeat_length.
      apply in_or_app. left. left. reflexivity.
    - intros Heq. apply (f_equal (@length byte)) in Heq.
      rewrite repeat_length in Heq. pose proof BLOCK_pos. cbn in Heq. lia. }
  split; [exact Hin |].
  exact (proj1 (proj2 (@producer_frames_are_full_blocks (fun _ _ _ _ => 0) _ _ _ Hin))).
Defined.

(** ** Band gains *)

Lemma py_index_in_range (n : nat) (idx : Z) :
  (- Z.of_nat n <= idx < Z.of_nat n)%Z ->
  py_index n idx = Returns (Z.to_nat (idx mod Z.of_nat n))
  /\ (Z.to_nat (idx mod Z.of_nat n) < n)%nat.
Proof.
  intros Hr. unfold py_index.
  assert (Hmod : (0 <= idx mod Z.of_nat n < Z.of_nat n)%Z)
    by (apply Z.mod_pos_bound; lia).
  split; [| lia].
  destruct (Z.leb_spec 0 idx) as [Hpos | Hneg].
  - destruct (Z.ltb_spec idx (Z.of_nat n)) as [Hlt | Hge]; [| lia].
    cbn [andb]. now rewrite Z.mod_small by lia.
  - cbn [andb].
    destruct (Z.leb_spec (- Z.of_nat n) idx) as [Hlo | Hlo]; [| lia].
    destruct (Z.ltb_spec idx 0) as [Hlt | Hge]; [| lia].
    cbn [andb]. f_equal. f_equal.
    apply Z.mod_unique with (q := (-1)%Z); lia.
Qed.

Lemma py_index_out_of_range (n : nat) (idx : Z) :
  (idx < - Z.of_nat n \/ Z.of_nat n <= idx)%Z ->
  py_index n idx = Raises IndexError.
Proof.
  intros Hr. unfold py_index.
  destruct (Z.leb_spec 0 idx); destruct (Z.ltb_spec idx (Z.of_nat n));
    destruct (Z.leb_spec (- Z.of_nat n) idx); destruct (Z.ltb_spec idx 0);
    cbn [andb]; try reflexivity; lia.
Qed.

(** Below the Nyquist frequency [a0] is above 1, whatever the gain:
    [set_peaking_eq] returns, and it keeps the running state. *)
Lemma set_peaking_eq_returns (biq : Biquad) (fs f0 Qf db : R) :
  0 < fs -> 0 < f0 < fs / 2 -> 0 < Qf ->
  exists biq',
    set_peaking_eq biq fs f0 Qf db = Returns biq'
    /\ z1 biq' = z1 biq /\ z2 biq' = z2 biq.
Proof.
  intros Hfs Hf HQ.
  pose proof (below_nyquist_a0 Hfs Hf HQ) as Halpha.
  pose proof (Rpower_10_pos (db / 40)) as HA.
  unfold set_peaking_eq.
  rewrite pydiv_ok by lra. cbn [mbind outcome_bind].
  rewrite pydiv_ok by lra. cbn [mbind outcome_bind].
  rewrite pydiv_ok by lra. cbn [mbind outcome_bind].
  set (alpha := sin (2 * PI * f0 / fs) / (2 * Qf)) in *.
  assert (Ha0 : 1 + alpha / Rpower 10 (db / 40) <> 0).
  { assert (0 < alpha / Rpower 10 (db / 40)) by (apply Rdiv_lt_0_compat; lra). lra. }
  rewrite !(pydiv_ok _ Ha0). cbn [mbind outcome_bind mret outcome_ret].
  eexists. split; [reflexivity |]. cbn. auto.
Qed.

Lemma set_eq_gain_out_of_range (self : AudioEngine) (idx : Z) (db : R) :
  (idx < - Z.of_nat (length (eq_points self))
   \/ Z.of_nat (length (eq_points self)) <= idx)%Z ->
  set_eq_gain self idx db = (self, Raises IndexError).
Proof.
  intros Hr. unfold set_eq_gain. now rewrite py_index_out_of_range.
Qed.

Lemma set_eq_gain_in_range (self : AudioEngine) (idx : Z) (db : R) :
  length (eq_filters self) = length (eq_points self) ->
  Forall band_ok (eq_points self) ->
  (- Z.of_nat (length (eq_points self)) <= idx < Z.of_nat (length (eq_points self)))%Z ->
  let i := Z.to_nat (idx mod Z.of_nat (length (eq_points self))) in
  exists bd biq biq',
    eq_points self !! i = Some bd
    /\ eq_filters self !! i = Some biq
    /\ set_peaking_eq biq APP_SR (freq bd) (Q bd) db = Returns biq'
    /\ z1 biq' = z1 biq /\ z2 biq' = z2 biq
    /\ set_eq_gain self idx db
       = (with_eq_filters
            (with_eq_points self (<[i := mkBand (freq bd) (Q bd) db]> (eq_points self)))
            (<[i := biq']> (eq_filters self)),
          Returns tt).
Proof.
  intros Hlen Hok Hr i.
  destruct (py_index_in_range _ Hr) as [Hpy Hi]. fold i in Hpy, Hi.
  destruct (lookup_lt_is_Some_2 (eq_points self) i Hi) as [bd Hbd].
  assert (Hi' : (i < length (eq_filters self))%nat) by lia.
  destruct (lookup_lt_is_Some_2 (eq_filters self) i Hi') as [biq Hbiq].
  assert (Hbok : band_ok bd).
  { rewrite List.Forall_forall in Hok. apply Hok.
    apply list_elem_of_In. eapply list_elem_of_lookup_2. exact Hbd. }
  destruct Hbok as [Hf HQ].
  destruct (@set_peaking_eq_returns biq APP_SR (freq bd) (Q bd) db APP_SR_pos Hf HQ)
    as (biq' & Hset & Hz1 & Hz2).
  exists bd, biq, biq'. repeat (split; [assumption |]).
  unfold set_eq_gain. rewrite Hpy, Hbd.
  cbn [eq_filters with_eq_points freq Q gain].
  rewrite Hlen, Hpy, Hbiq, Hset. reflexivity.
Qed.

Lemma as_constructed_bands (self : AudioEngine) :
  as_constructed self ->
  length (eq_points self) = 5%nat
  /\ length (eq_filters self) = length (eq_points self)
  /\ Forall band_ok (eq_points self).
Proof.
  intros Hc. rewrite (ac_eq_points Hc), (ac_eq_filters_length Hc).
  split; [reflexivity |]. split; [reflexivity |].
  repeat constructor; cbn; unfold APP_SR; lra.
Qed.

(** C4, as stated, fails: the index is not clamped.  On the engine as
    constructed, index 7 raises [IndexError] and changes nothing, and
    index -1 is Python's last element: band 4 gets the gain and band 0
    keeps its own. *)
Lemma set_eq_gain_does_not_clamp :
  after_init (fun self =>
    set_eq_gain self 7 6 = (self, Raises IndexError)
    /\ eq_points (fst (set_eq_gain self (-1) 6)) !! 4%nat = Some (mkBand 8000 1 6)
    /\ eq_points (fst (set_eq_gain self (-1) 6)) !! 0%nat = Some (mkBand 100 1 0)).
Proof.
  apply after_init_intro. intros self Hc.
  destruct (as_constructed_bands Hc) as (H5 & Hlen & Hok).
  split.
  - apply set_eq_gain_out_of_range. rewrite H5. lia.
  - destruct (@set_eq_gain_in_range self (-1) 6 Hlen Hok)
      as (bd & biq & biq' & Hbd & _ & _ & _ & _ & Heq); [rewrite H5; lia |].
    rewrite Heq. cbn [fst eq_points with_eq_filters with_eq_points].
    rewrite H5 in Hbd |- *. change (Z.to_nat (-1 mod Z.of_nat 5)) with 4%nat in Hbd |- *.
    rewrite (ac_eq_points Hc) in Hbd |- *. cbn in Hbd. injection Hbd as <-.
    split; reflexivity.
Qed.

(** C4 (amended): [set_eq_gain] indexes as a Python list does.  An
    index outside [-n, n), with [n] the number of bands (5), raises
    [IndexError] and leaves the engine as it was.  An index inside acts
    on band [idx mod n] (the index itself when it is not negative): the
    call returns, that band gets the new gain and freshly derived
    coefficients with its running state kept, and the points and the
    filters of the other bands are unchanged. *)
Theorem set_eq_gain_touches_one_band (self : AudioEngine) (idx : Z) (db : R) :
  length (eq_filters self) = length (eq_points self) ->
  Forall band_ok (eq_points self) ->
  let n := Z.of_nat (length (eq_points self)) in
  let self' := fst (set_eq_gain self idx db) in
  ((idx < - n \/ n <= idx)%Z -> set_eq_gain self idx db = (self, Raises IndexError))
  /\ ((- n <= idx < n)%Z ->
      let i := Z.to_nat (idx mod n) in
      snd (set_eq_gain self idx db) = Returns tt
      /\ (forall j : nat,
             j <> i ->
             eq_filters self' !! j = eq_filters self !! j
             /\ eq_points self' !! j = eq_points self !! j)
      /\ exists bd biq biq',
           eq_points self !! i = Some bd
           /\ eq_filters self !! i = Some biq
           /\ set_peaking_eq biq APP_SR (freq bd) (Q bd) db = Returns biq'
           /\ eq_points self' !! i = Some (mkBand (freq bd) (Q bd) db)
           /\ eq_filters self' !! i = Some biq'
           /\ z1 biq' = z1 biq /\ z2 biq' = z2 biq).
Proof.
  intros Hlen Hok n self'. split.
  - intros Hr. now apply set_eq_gain_out_of_range.
  - intros Hr i.
    destruct (@set_eq_gain_in_range self idx db Hlen Hok Hr)
      as (bd & biq & biq' & Hbd & Hbiq & Hset & Hz1 & Hz2 & Heq).
    fold n in Heq. fold i in Hbd, Hbiq, Heq.
    subst self'. rewrite Heq. cbn [fst snd eq_points eq_filters with_eq_filters with_eq_points].
    split; [reflexivity |]. split.
    + intros j Hj. split; apply list_lookup_insert_ne; congruence.
    + exists bd, biq, biq'.
      repeat (split; [assumption |]).
      split; [| split; [| split; assumption]].
      * apply list_lookup_insert_eq. now apply lookup_lt_Some with bd.
      * apply list_lookup_insert_eq. now apply lookup_lt_Some with biq.
Qed.

Lemma set_eq_gain_touches_one_band_witness :
  after_init (fun self =>
    (length (eq_filters self) = length (eq_points self)
     /\ Forall band_ok (eq_points self))
    /\ snd (set_eq_gain self 2 6) = Returns tt
    /\ forall j : nat,
         j <> 2%nat ->
         eq_filters (fst (set_eq_gain self 2 6)) !! j = eq_filters self !! j
         /\ eq_points (fst (set_eq_gain self 2 6)) !! j = eq_points self !! j).
Proof.
  apply after_init_intro. intros self Hc.
  destruct (as_constructed_bands Hc) as (H5 & Hlen & Hok).
  split; [auto |].
  destruct (@set_eq_gain_touches_one_band self 2 6 Hlen Hok) as [_ Hin].
  rewrite H5 in Hin.
  destruct Hin as (Hret & Hothers & _); [lia |].
  split; [exact Hret | exact Hothers].
Defined.

(** * Further properties of the code *)

(** ** Band gains, one after another *)

(** The coefficients depend on the arguments only; the filter passed
    in contributes its running state. *)
Lemma set_peaking_eq_state (biq biq' other : Biquad) (fs f0 Qf db : R) :
  set_peaking_eq biq fs f0 Qf db = Returns biq' ->
  set_peaking_eq other fs f0 Qf db
  = Returns (mkBiquad (b0 biq') (b1 biq') (b2 biq') (a1 biq') (a2 biq')
               (z1 other) (z2 other))
  /\ z1 biq' = z1 biq /\ z2 biq' = z2 biq.
Proof.
  unfold set_peaking_eq. intros H.
  repeat match type of H with
         | (pydiv ?x ?y ≫= _) = _ =>
             destruct (pydiv x y); cbn [mbind outcome_bind] in *; [| discriminate H]
         end.
  injection H as <-. cbn. auto.
Qed.

Lemma set_eq_gain_keeps_bands_ok (self : AudioEngine) (idx : Z) (db : R) :
  bands_ok self ->
  bands_ok (fst (set_eq_gain self idx db))
  /\ map freq (eq_points (fst (set_eq_gain self idx db))) = map freq (eq_points self)
  /\ map Q (eq_points (fst (set_eq_gain self idx db))) = map Q (eq_points self).
Proof.
  intros [Hlen Hok].
  set (n := Z.of_nat (length (eq_points self))).
  destruct (Z_lt_ge_dec idx (- n)) as [Hlo | Hlo];
    [rewrite set_eq_gain_out_of_range by (fold n; lia); cbn; unfold bands_ok; auto |].
  destruct (Z_lt_ge_dec idx n) as [Hhi | Hhi];
    [| rewrite set_eq_gain_out_of_range by (fold n; lia); cbn; unfold bands_ok; auto].
  destruct (@set_eq_gain_in_range self idx db Hlen Hok)
    as (bd & biq & biq' & Hbd & Hbiq & _ & _ & _ & Heq); [fold n; lia |].
  rewrite Heq. unfold bands_ok.
  cbn [fst eq_points eq_filters with_eq_filters with_eq_points].
  fold n in Hbd, Hbiq |- *. set (i := Z.to_nat (idx mod n)) in *.
  assert (Hbok : band_ok bd).
  { rewrite List.Forall_forall in Hok. apply Hok.
    apply list_elem_of_In. eapply list_elem_of_lookup_2. exact Hbd. }
  split; [split |].
  - rewrite !length_insert. exact Hlen.
  - apply Forall_insert; [exact Hok | exact Hbok].
  - split.
    + rewrite list_fmap_insert. cbn [freq].
      apply list_insert_id. rewrite list_lookup_fmap, Hbd. reflexivity.
    + rewrite list_fmap_insert. cbn [Q].
      apply list_insert_id. rewrite list_lookup_fmap, Hbd. reflexivity.
Qed.

Lemma set_eq_gain_in_range_again (self : AudioEngine) (idx : Z) (db : R) :
  bands_ok self ->
  (- Z.of_nat (length (eq_points self)) <= idx < Z.of_nat (length (eq_points self)))%Z ->
  set_eq_gain (fst (set_eq_gain self idx db)) idx db = set_eq_gain self idx db.
Proof.
  intros [Hlen Hok] Hr.
  destruct (@set_eq_gain_keeps_bands_ok self idx db (conj Hlen Hok))
    as ([Hlen' Hok'] & _ & _).
  destruct (@set_eq_gain_in_range self idx db Hlen Hok Hr)
    as (bd & biq & biq' & Hbd & Hbiq & Hset & _ & _ & Heq).
  set (n := Z.of_nat (length (eq_points self))) in *.
  set (i := Z.to_nat (idx mod n)) in *.
  assert (Hi : (i < length (eq_points self))%nat) by (now apply lookup_lt_Some with bd).
  assert (Hi' : (i < length (eq_filters self))%nat) by lia.
  rewrite Heq in Hlen', Hok' |- *. cbn [fst] in *.
  set (self2 := with_eq_filters _ _) in *.
  assert (Hn2 : Z.of_nat (length (eq_points self2)) = n).
  { unfold self2. cbn [eq_points with_eq_filters with_eq_points].
    now rewrite length_insert. }
  destruct (@set_eq_gain_in_range self2 idx db Hlen' Hok')
    as (bd2 & biq2 & biq2' & Hbd2 & Hbiq2 & Hset2 & _ & _ & Heq2);
    [rewrite Hn2; exact Hr |].
  rewrite Hn2 in Hbd2, Hbiq2, Heq2. fold i in Hbd2, Hbiq2, Heq2.
  unfold self2 in Hbd2, Hbiq2. cbn [eq_points eq_filters with_eq_filters with_eq_points] in Hbd2, Hbiq2.
  rewrite list_lookup_insert_eq in Hbd2 by exact Hi. injection Hbd2 as <-.
  rewrite list_lookup_insert_eq in Hbiq2 by exact Hi'. injection Hbiq2 as <-.
  cbn [freq Q] in Hset2, Heq2.
  destruct (@set_peaking_eq_state biq biq' biq' _ _ _ _ Hset) as (Hagain & Hs1 & Hs2).
  rewrite Hagain in Hset2. injection Hset2 as <-.
  rewrite Heq2. f_equal.
  unfold self2. cbn [eq_points eq_filters with_eq_filters with_eq_points].
  rewrite !list_insert_insert_eq.
  destruct biq' as [c0 c1 c2 d1 d2 s1 s2]. reflexivity.
Qed.

(** X3: setting a band to the gain it already has changes nothing.  On
    an engine whose bands can be refreshed, a second [set_eq_gain] with
    the same valid index and the same gain returns and leaves the engine
    exactly as the first one did: points, coefficients and running
    state. *)
Theorem set_eq_gain_idempotent (self : AudioEngine) (idx : Z) (db : R) :
  bands_ok self ->
  (- Z.of_nat (length (eq_points self)) <= idx < Z.of_nat (length (eq_points self)))%Z ->
  snd (set_eq_gain self idx db) = Returns tt
  /\ set_eq_gain (fst (set_eq_gain self idx db)) idx db = set_eq_gain self idx db.
Proof.
  intros Hok Hr. split; [| now apply set_eq_gain_in_range_again].
  destruct Hok as [Hlen Hok].
  destruct (@set_eq_gain_in_range self idx db Hlen Hok Hr)
    as (bd & biq & biq' & _ & _ & _ & _ & _ & Heq).
  now rewrite Heq.
Qed.

Lemma as_constructed_bands_ok (self : AudioEngine) :
  as_constructed self -> bands_ok self /\ length (eq_points self) = 5%nat.
Proof.
  intros Hc. destruct (as_constructed_bands Hc) as (H5 & Hlen & Hok).
  unfold bands_ok. auto.
Qed.

Lemma set_eq_gain_idempotent_witness :
  after_init (fun self =>
    bands_ok self
    /\ set_eq_gain (fst (set_eq_gain self (-2) 3)) (-2) 3 = set_eq_gain self (-2) 3).
Proof.
  apply after_init_intro. intros self Hc.
  destruct (as_constructed_bands_ok Hc) as [Hok H5].
  split; [exact Hok |].
  refine (proj2 (@set_eq_gain_idempotent self (-2) 3 Hok _)).
  rewrite H5. lia.
Defined.

Lemma set_eq_gain_at (self : AudioEngine) (idx : Z) (db : R)
  (bd : band) (biq biq' : Biquad) :
  bands_ok self ->
  (- Z.of_nat (length (eq_points self)) <= idx < Z.of_nat (length (eq_points self)))%Z ->
  let i := Z.to_nat (idx mod Z.of_nat (length (eq_points self))) in
  eq_points self !! i = Some bd ->
  eq_filters self !! i = Some biq ->
  set_peaking_eq biq APP_SR (freq bd) (Q bd) db = Returns biq' ->
  set_eq_gain self idx db
  = (with_eq_filters
       (with_eq_points self (<[i := mkBand (freq bd) (Q bd) db]> (eq_points self)))
       (<[i := biq']> (eq_filters self)),
     Returns tt).
Proof.
  intros [Hlen Hok] Hr i Hbd Hbiq Hset.
  destruct (@set_eq_gain_in_range self idx db Hlen Hok Hr)
    as (bd0 & biq0 & biq0' & Hbd0 & Hbiq0 & Hset0 & _ & _ & Heq).
  fold i in Hbd0, Hbiq0, Heq.
  rewrite Hbd in Hbd0. injection Hbd0 as <-.
  rewrite Hbiq in Hbiq0. injection Hbiq0 as <-.
  rewrite Hset in Hset0. injection Hset0 as <-. exact Heq.
Qed.

(** X4: the gains of two different bands can be set in either order.
    With both indices valid and naming different bands, the two orders
    of [set_eq_gain] return and leave the same engine. *)
Theorem set_eq_gain_commute (self : AudioEngine) (idx1 idx2 : Z) (db1 db2 : R) :
  bands_ok self ->
  let n := Z.of_nat (length (eq_points self)) in
  (- n <= idx1 < n)%Z -> (- n <= idx2 < n)%Z ->
  Z.to_nat (idx1 mod n) <> Z.to_nat (idx2 mod n) ->
  set_eq_gain (fst (set_eq_gain self idx1 db1)) idx2 db2
  = set_eq_gain (fst (set_eq_gain self idx2 db2)) idx1 db1
  /\ snd (set_eq_gain (fst (set_eq_gain self idx1 db1)) idx2 db2) = Returns tt.
Proof.
  intros Hok n Hr1 Hr2 Hne.
  pose proof Hok as [Hlen Hbands].
  destruct (@set_eq_gain_in_range self idx1 db1 Hlen Hbands Hr1)
    as (bd1 & biq1 & biq1' & Hbd1 & Hbiq1 & Hset1 & _ & _ & Heq1).
  destruct (@set_eq_gain_in_range self idx2 db2 Hlen Hbands Hr2)
    as (bd2 & biq2 & biq2' & Hbd2 & Hbiq2 & Hset2 & _ & _ & Heq2).
  fold n in Hbd1, Hbiq1, Heq1, Hbd2, Hbiq2, Heq2.
  set (i1 := Z.to_nat (idx1 mod n)) in *. set (i2 := Z.to_nat (idx2 mod n)) in *.
  destruct (@set_eq_gain_keeps_bands_ok self idx1 db1 Hok) as (Hok1 & _ & _).
  destruct (@set_eq_gain_keeps_bands_ok self idx2 db2 Hok) as (Hok2 & _ & _).
  rewrite Heq1 in Hok1 |- *. rewrite Heq2 in Hok2 |- *. cbn [fst] in *.
  set (self1 := with_eq_filters _ (<[i1 := biq1']> _)) in *.
  set (self2 := with_eq_filters _ (<[i2 := biq2']> _)) in *.
  assert (Hn1 : Z.of_nat (length (eq_points self1)) = n)
    by (unfold self1; cbn [eq_points with_eq_filters with_eq_points];
        now rewrite length_insert).
  assert (Hn2 : Z.of_nat (length (eq_points self2)) = n)
    by (unfold self2; cbn [eq_points with_eq_filters with_eq_points];
        now rewrite length_insert).
  rewrite (@set_eq_gain_at self1 idx2 db2 bd2 biq2 biq2' Hok1);
    [| rewrite Hn1; exact Hr2
     | rewrite Hn1; unfold self1; cbn [eq_points with_eq_filters with_eq_points];
       rewrite list_lookup_insert_ne by exact Hne; exact Hbd2
     | rewrite Hn1; unfold self1; cbn [eq_filters with_eq_filters with_eq_points];
       rewrite list_lookup_insert_ne by exact Hne; exact Hbiq2
     | exact Hset2 ].
  rewrite (@set_eq_gain_at self2 idx1 db1 bd1 biq1 biq1' Hok2);
    [| rewrite Hn2; exact Hr1
     | rewrite Hn2; unfold self2; cbn [eq_points with_eq_filters with_eq_points];
       rewrite list_lookup_insert_ne by (intros E; apply Hne; now symmetry); exact Hbd1
     | rewrite Hn2; unfold self2; cbn [eq_filters with_eq_filters with_eq_points];
       rewrite list_lookup_insert_ne by (intros E; apply Hne; now symmetry); exact Hbiq1
     | exact Hset1 ].
  rewrite Hn1, Hn2. fold i1 i2. split; [| reflexivity].
  f_equal. unfold self1, self2.
  cbn [eq_points eq_filters with_eq_filters with_eq_points].
  rewrite (list_insert_insert_ne (eq_points self) i1 i2) by exact Hne.
  rewrite (list_insert_insert_ne (eq_filters self) i1 i2) by exact Hne.
  reflexivity.
Qed.

Lemma set_eq_gain_commute_witness :
  after_init (fun self =>
    bands_ok self
    /\ set_eq_gain (fst (set_eq_gain self 0 6)) (-1) (-3)
       = set_eq_gain (fst (set_eq_gain self (-1) (-3))) 0 6).
Proof.
  apply after_init_intro. intros self Hc.
  destruct (as_constructed_bands_ok Hc) as [Hok H5].
  split; [exact Hok |].
  refine (proj1 (@set_eq_gain_commute self 0 (-1) 6 (-3) Hok _ _ _));
    rewrite H5; [lia | lia | vm_compute; discriminate].
Defined.

(** ** Settings applied to the engine *)

Lemma eq_gains_loop_spec (eq : list R) (count : nat) :
  forall (self : AudioEngine) (i : nat),
    bands_ok self ->
    (i + count <= length (eq_points self))%nat ->
    (i + count <= length eq)%nat ->
    exists P F,
      eq_gains_loop self eq i count
      = (with_eq_filters (with_eq_points self P) F, Returns tt)
      /\ length P = length (eq_points self)
      /\ length F = length (eq_filters self)
      /\ (forall j : nat,
             (j < i \/ i + count <= j)%nat ->
             P !! j = eq_points self !! j /\ F !! j = eq_filters self !! j)
      /\ (forall (j : nat) bd biq g,
             (i <= j < i + count)%nat ->
             eq_points self !! j = Some bd ->
             eq_filters self !! j = Some biq ->
             eq !! j = Some g ->
             P !! j = Some (mkBand (freq bd) (Q bd) g)
             /\ exists biq',
                 set_peaking_eq biq APP_SR (freq bd) (Q bd) g = Returns biq'
                 /\ F !! j = Some biq').
Proof.
  induction count as [| count IH]; intros self i Hok Hn He.
  - exists (eq_points self), (eq_filters self). cbn [eq_gains_loop].
    split; [destruct self; reflexivity |].
    split; [reflexivity |]. split; [reflexivity |].
    split; [auto | intros; lia].
  - cbn [eq_gains_loop].
    destruct (lookup_lt_is_Some_2 eq i) as [g Hg]; [lia |]. rewrite Hg.
    pose proof Hok as [Hlen Hbands].
    set (n := Z.of_nat (length (eq_points self))).
    assert (Hr : (- n <= Z.of_nat i < n)%Z) by (unfold n; lia).
    assert (Hi : Z.to_nat (Z.of_nat i mod n) = i)
      by (rewrite Z.mod_small by (unfold n; lia); apply Nat2Z.id).
    destruct (@set_eq_gain_in_range self (Z.of_nat i) g Hlen Hbands Hr)
      as (bd0 & biq0 & biq0' & Hbd0 & Hbiq0 & Hset0 & _ & _ & Heq).
    fold n in Hbd0, Hbiq0, Heq. rewrite Hi in Hbd0, Hbiq0, Heq.
    destruct (@set_eq_gain_keeps_bands_ok self (Z.of_nat i) g Hok) as (Hok1 & _ & _).
    rewrite Heq in Hok1 |- *. cbn [fst] in Hok1.
    set (self1 := with_eq_filters _ _) in *.
    assert (HP1 : eq_points self1 = <[i := mkBand (freq bd0) (Q bd0) g]> (eq_points self))
      by reflexivity.
    assert (HF1 : eq_filters self1 = <[i := biq0']> (eq_filters self)) by reflexivity.
    destruct (IH self1 (S i) Hok1) as (P & F & Hloop & HlP & HlF & Hout & Hin).
    { rewrite HP1, length_insert. lia. }
    { lia. }
    exists P, F. rewrite Hloop.
    split; [reflexivity |].
    rewrite HP1, length_insert in HlP. rewrite HF1, length_insert in HlF.
    split; [exact HlP |]. split; [exact HlF |]. split.
    + intros j Hj. destruct (Hout j) as [HPj HFj]; [lia |].
      rewrite HPj, HFj, HP1, HF1.
      split; apply list_lookup_insert_ne; lia.
    + intros j bd biq g' Hj Hbd Hbiq Hg'.
      destruct (Nat.eq_dec j i) as [-> | Hne].
      * rewrite Hbd in Hbd0. injection Hbd0 as <-.
        rewrite Hbiq in Hbiq0. injection Hbiq0 as <-.
        rewrite Hg in Hg'. injection Hg' as <-.
        destruct (Hout i) as [HPi HFi]; [lia |].
        rewrite HPi, HFi, HP1, HF1.
        rewrite !list_lookup_insert_eq by (try rewrite Hlen; lia).
        split; [reflexivity |]. exists biq0'. auto.
      * apply (Hin j bd biq g'); [lia | | | exact Hg'].
        -- rewrite HP1, list_lookup_insert_ne by lia. exact Hbd.
        -- rewrite HF1, list_lookup_insert_ne by lia. exact Hbiq.
Qed.

(** The gate mode the engine takes from its name. *)
Lemma set_gate_mode_normalises (self : AudioEngine) (m : string) :
  gate_mode (set_gate_mode self m) = Expander <-> m = "Expander"%string.
Proof.
  unfold set_gate_mode. cbn [gate_mode with_gate_mode].
  destruct (String.eqb_spec m "Expander") as [-> | Hne]; split; intros H;
    try reflexivity; try discriminate; contradiction.
Qed.

(** X5: applying a settings record drives the engine to exactly those
    settings.  With five refreshable bands and at least five EQ gains,
    [_apply_settings_to_ui_and_engine] returns; the master gain is the
    linear value of the volume, the gate parameters are those of the
    record (the mode is the expander only for the name "Expander"),
    every band has its frequency and Q with the new gain and the
    coefficients [set_peaking_eq] derives from them on its old filter,
    and the queue and the state of the gate are untouched. *)
Theorem apply_settings_sets_engine (self : AudioEngine) (s : settings) :
  bands_ok self ->
  length (eq_points self) = 5%nat ->
  (5 <= length (s_eq s))%nat ->
  let self' := fst (_apply_settings_to_engine self s) in
  snd (_apply_settings_to_engine self s) = Returns tt
  /\ master_gain self' = db_to_gain (s_volume_db s)
  /\ gate_enabled self' = s_gate_enabled s
  /\ (gate_mode self' = Expander <-> s_gate_mode s = "Expander"%string)
  /\ open_thr_db self' = s_open_thr_db s
  /\ close_thr_db self' = s_close_thr_db s
  /\ floor_db self' = s_floor_db s
  /\ expander_ratio self' = s_expander_ratio s
  /\ q self' = q self /\ env self' = env self
  /\ current_gain self' = current_gain self
  /\ forall (j : nat) bd biq g,
       eq_points self !! j = Some bd ->
       eq_filters self !! j = Some biq ->
       s_eq s !! j = Some g ->
       eq_points self' !! j = Some (mkBand (freq bd) (Q bd) g)
       /\ exists biq',
           set_peaking_eq biq APP_SR (freq bd) (Q bd) g = Returns biq'
           /\ eq_filters self' !! j = Some biq'.
Proof.
  intros Hok H5 Heq5. cbn zeta. unfold _apply_settings_to_engine.
  set (self1 := set_volume_db self (s_volume_db s)).
  assert (Hok1 : bands_ok self1) by exact Hok.
  destruct (@eq_gains_loop_spec (s_eq s) 5 self1 0%nat Hok1)
    as (P & F & Hloop & _ & _ & _ & Hin).
  { change (eq_points self1) with (eq_points self). lia. }
  { lia. }
  rewrite Hloop. cbn [fst snd].
  split; [reflexivity |]. split; [reflexivity |]. split; [reflexivity |].
  split.
  { unfold set_gate_enabled, set_expander_ratio, set_gate_floor,
      set_gate_close_thr, set_gate_open_thr.
    cbn [gate_mode with_gate_enabled with_expander_ratio with_floor_db
           with_close_thr_db with_open_thr_db].
    apply set_gate_mode_normalises. }
  repeat (split; [reflexivity |]).
  intros j bd biq g Hbd Hbiq Hg.
  assert (Hj : (j < 5)%nat) by (rewrite <- H5; now apply lookup_lt_Some with bd).
  apply (Hin j bd biq g); [lia | exact Hbd | exact Hbiq | exact Hg].
Qed.

Lemma apply_settings_sets_engine_witness :
  after_init (fun self =>
    let s := mkSettings 3 [0; 1; - 2; 0; 4] true "Expander" (-40) (-50) (-30) 2 in
    (bands_ok self /\ length (eq_points self) = 5%nat)
    /\ snd (_apply_settings_to_engine self s) = Returns tt
    /\ master_gain (fst (_apply_settings_to_engine self s)) = db_to_gain 3
    /\ gate_enabled (fst (_apply_settings_to_engine self s)) = true).
Proof.
  apply after_init_intro. intros self Hc. cbn zeta.
  destruct (as_constructed_bands_ok Hc) as [Hok H5].
  split; [auto |].
  destruct (@apply_settings_sets_engine self
              (mkSettings 3 [0; 1; - 2; 0; 4] true "Expander" (-40) (-50) (-30) 2)
              Hok H5) as (Hret & Hmg & Hge & _); [cbn; lia |].
  auto.
Defined.

(** ** The gate never amplifies *)

Lemma gate_loop_gate_attenuates (atk rel open_thr close_thr floor_lin ratio : R)
  (x : list R) :
  0 <= floor_lin <= 1 ->
  forall envv g,
    0 <= g <= 1 ->
    0 <= snd (fst (gate_loop Gate atk rel open_thr close_thr floor_lin ratio envv g x)) <= 1
    /\ Forall2 (fun xi yi => Rabs yi <= Rabs xi) x
         (snd (gate_loop Gate atk rel open_thr close_thr floor_lin ratio envv g x)).
Proof.
  intros Hfl. induction x as [| xi rest IH]; intros envv g Hg.
  - split; [exact Hg | constructor].
  - cbn [gate_loop]. unfold gate_sample.
    set (envv' := env_update atk rel envv (Rabs xi)).
    set (g' := gain_smooth g _).
    assert (Hg' : 0 <= g' <= 1).
    { apply gain_smooth_range; [exact Hg |]. unfold gate_target.
      destruct (Rle_dec open_thr (env_to_db envv')); [lra |].
      destruct (Rle_dec (env_to_db envv') close_thr); lra. }
    specialize (IH envv' g' Hg').
    destruct (gate_loop Gate atk rel open_thr close_thr floor_lin ratio envv' g' rest)
      as [[e2 g2] ys].
    cbn [fst snd] in *. destruct IH as [IHg IHy].
    split; [exact IHg |]. constructor; [| exact IHy].
    rewrite Rabs_mult, (Rabs_right g') by lra.
    pose proof (Rabs_pos xi). nra.
Qed.

(** X9: in Gate mode the gate never amplifies.  With a floor of at most
    0 dB and the smoothed gain between 0 and 1 before the block, the
    gain is between 0 and 1 after it, and every output sample is in
    magnitude at most its input sample.  Rounding does not break the
    bound: at the top of the range both blends give exactly 1.0 in
    binary64. *)
Theorem gate_mode_never_amplifies (self : AudioEngine) (x : list R) :
  gate_mode self = Gate ->
  floor_db self <= 0 ->
  0 <= current_gain self <= 1 ->
  0 <= current_gain (fst (_gate_or_expander self x)) <= 1
  /\ Forall2 (fun xi yi => Rabs yi <= Rabs xi) x (snd (_gate_or_expander self x))
  /\ f64_add (f64_mul (f64_lit 9 10) (f64_of_Z 1)) (f64_mul (f64_lit 1 10) (f64_of_Z 1))
     = f64_of_Z 1
  /\ f64_add (f64_mul (f64_lit 98 100) (f64_of_Z 1)) (f64_mul (f64_lit 2 100) (f64_of_Z 1))
     = f64_of_Z 1.
Proof.
  intros Hm Hfl Hg.
  assert (Hfloor : 0 <= db_to_gain (floor_db self) <= 1).
  { split; [left; apply db_to_gain_pos |].
    rewrite <- db_to_gain_0. now apply db_to_gain_le. }
  rewrite gate_or_expander_state. cbn [fst snd current_gain with_gate_state].
  rewrite Hm.
  destruct (@gate_loop_gate_attenuates (attack_open self) (release_close self)
              (open_thr_db self) (close_thr_db self) (db_to_gain (floor_db self))
              (Rmax 1.001 (expander_ratio self)) x Hfloor (env self) (current_gain self) Hg)
    as [Hgain Hout].
  split; [exact Hgain |]. split; [exact Hout |].
  split; vm_compute; reflexivity.
Qed.

Lemma gate_mode_never_amplifies_witness :
  after_init (fun self =>
    (gate_mode self = Gate /\ floor_db self <= 0 /\ 0 <= current_gain self <= 1)
    /\ Forall2 (fun xi yi => Rabs yi <= Rabs xi)
         [1 / 2; 1 / 1000] (snd (_gate_or_expander self [1 / 2; 1 / 1000]))).
Proof.
  apply after_init_intro. intros self Hc.
  assert (Hm : gate_mode self = Gate) by apply (ac_gate_mode Hc).
  assert (Hf : floor_db self <= 0) by (rewrite (ac_floor_db Hc); lra).
  assert (Hg : 0 <= current_gain self <= 1) by (rewrite (ac_current_gain Hc); lra).
  split; [auto |].
  exact (proj1 (proj2 (@gate_mode_never_amplifies self [1 / 2; 1 / 1000] Hm Hf Hg))).
Defined.

(** ** The gate without hysteresis *)





(** ** The callback: what it delivers and what it leaves alone *)

Lemma clip_bounds (v : R) : -1 <= clip v <= 1.
Proof.
  unfold clip. split.
  - apply Rmin_glb; [apply Rmax_r | lra].
  - apply Rmin_r.
Qed.

Lemma assign_outdata_clipped (frames : nat) (buf out : list R) :
  assign_outdata frames (map clip buf) = Returns out ->
  Forall (fun v => -1 <= v <= 1) out.
Proof.
  unfold assign_outdata. intros H.
  assert (Hall : Forall (fun v => -1 <= v <= 1) (map clip buf)).
  { apply List.Forall_forall. intros v Hv. apply in_map_iff in Hv.
    destruct Hv as (u & <- & _). apply clip_bounds. }
  destruct (Nat.eqb (length (map clip buf)) frames).
  - injection H as <-. exact Hall.
  - destruct (map clip buf) as [| v [| v' rest]]; try discriminate.
    injection H as <-. apply Forall_repeat. now inversion Hall.
Qed.

Lemma silence_in_range (frames : nat) : Forall (fun v => -1 <= v <= 1) (repeat 0 frames).
Proof. apply Forall_repeat. lra. Qed.

(** On float32 the clip brings every value that is a number into the
    interval, the infinities included; a NaN comes out as it went in. *)
Lemma clip_f32_bounds (v : float) :
  (v = SpecFloat.S754_nan /\ clip_f32 v = SpecFloat.S754_nan)
  \/ (float_le f32_minus_one (clip_f32 v) = true
      /\ float_le (clip_f32 v) f32_one = true).
Proof.
  destruct v as [s | s | | s m e]; [right | right | left; split; reflexivity | right].
  all: unfold clip_f32.
  all: match goal with
       | |- context [float_lt ?x f32_minus_one] =>
           assert (Hn : x <> SpecFloat.S754_nan) by discriminate;
           destruct (float_lt x f32_minus_one) eqn:Hlo;
             [split; reflexivity |];
           destruct (float_lt f32_one x) eqn:Hhi;
             [split; reflexivity |];
           split;
             [apply float_lt_false_le; [exact Hn | discriminate | exact Hlo]
             | apply float_lt_false_le; [discriminate | exact Hn | exact Hhi]]
       end.
Qed.

(** X12: a block the callback delivers is within full scale.  The clip
    is the last stage: every sample of every returned output block,
    silence or processed audio, lies in [-1, 1], whatever the gains.
    The samples of the model are real numbers, that is, finite and not
    NaN; on float32 the clip brings every value but a NaN into the
    interval and passes a NaN on, so a NaN that reaches the clip is the
    one way out of the bound. *)
Theorem callback_output_is_clipped
  (f32 : byte -> byte -> byte -> byte -> R) (self : AudioEngine) (frames : nat)
  (out : list R) (w : float) :
  cb_outdata (_callback f32 self frames) = Returns out ->
  Forall (fun v => -1 <= v <= 1) out
  /\ ((w = SpecFloat.S754_nan /\ clip_f32 w = SpecFloat.S754_nan)
      \/ (float_le f32_minus_one (clip_f32 w) = true
          /\ float_le (clip_f32 w) f32_one = true)).
Proof.
  intros Hout. split; [| apply clip_f32_bounds]. revert Hout.
  destruct (paused_flag self) eqn:Hp.
  - rewrite (@callback_paused f32 self frames Hp). cbn [cb_outdata].
    intros [= <-]. apply silence_in_range.
  - destruct (q self) as [| it rest] eqn:Hq.
    + rewrite (@callback_empty f32 self frames Hp Hq). cbn [cb_outdata].
      intros [= <-]. apply silence_in_range.
    + destruct it as [b | msg |].
      * destruct (frombuffer f32 b) as [buf | e] eqn:Hb.
        -- rewrite (@callback_frame f32 self frames b rest buf Hp Hq Hb).
           cbn [cb_outdata]. apply assign_outdata_clipped.
        -- unfold _callback. rewrite Hp, Hq. cbn [q_get]. rewrite Hb.
           cbn [cb_outdata]. discriminate.
      * rewrite (@callback_sentinel f32 self frames (ErrorItem msg) rest Hp Hq)
          by (right; now exists msg).
        cbn [cb_outdata]. intros [= <-]. apply silence_in_range.
      * rewrite (@callback_sentinel f32 self frames EndOfStream rest Hp Hq)
          by now left.
        cbn [cb_outdata]. intros [= <-]. apply silence_in_range.
Qed.

Lemma callback_output_is_clipped_witness :
  after_init (fun self =>
    let f32 := fun _ _ _ _ : byte => 3 in
    let self0 := with_q (set_volume_db (start self) 20) [Frame [x00; x00; x00; x00]] in
    cb_outdata (_callback f32 self0 1) = Returns [1]
    /\ Forall (fun v => -1 <= v <= 1) [1]).
Proof.
  apply after_init_intro. intros self Hc. cbn zeta.
  rewrite (start_as_constructed Hc).
  set (f32 := fun _ _ _ _ : byte => 3).
  set (self0 := with_q _ _).
  assert (Hp : paused_flag self0 = false) by reflexivity.
  assert (Hq : q self0 = Frame [x00; x00; x00; x00] :: []) by reflexivity.
  assert (Hb : frombuffer f32 [x00; x00; x00; x00] = Returns [3]) by reflexivity.
  assert (Hout : cb_outdata (_callback f32 self0 1) = Returns [1]).
  { rewrite (@callback_frame f32 self0 1 _ _ _ Hp Hq Hb). cbn [cb_outdata].
    replace (gate_enabled self0) with false by (symmetry; apply (ac_gate_enabled Hc)).
    cbn [snd].
    replace (eq_filters self0) with (eq_filters self) by reflexivity.
    rewrite (eq_chain_identity (ac_eq_filters Hc)).
    cbn [map]. unfold assign_outdata. cbn [length Nat.eqb].
    f_equal. f_equal. unfold clip.
    assert (Hbig : 1 <= 3 * master_gain self0).
    { change (master_gain self0) with (db_to_gain 20).
      assert (H : db_to_gain 0 <= db_to_gain 20) by (apply db_to_gain_le; lra).
      rewrite db_to_gain_0 in H. lra. }
    rewrite Rmax_left by lra. apply Rmin_right. exact Hbig. }
  split; [exact Hout |].
  exact (proj1 (@callback_output_is_clipped f32 self0 1 [1]
                  (SpecFloat.S754_infinity false) Hout)).
Defined.

Lemma frombuffer_ragged (f32 : byte -> byte -> byte -> byte -> R) (n : nat) :
  forall b, (n * 4 < length b < n * 4 + 4)%nat -> frombuffer f32 b = Raises ValueError.
Proof.
  induction n as [| n IH]; intros b Hb.
  - destruct b as [| c0 [| c1 [| c2 [| c3 rest]]]]; cbn in Hb; try reflexivity; lia.
  - destruct b as [| c0 [| c1 [| c2 [| c3 rest]]]]; cbn in Hb; try lia.
    cbn [frombuffer]. rewrite IH by lia. reflexivity.
Qed.

(** X14: a frame whose length is not a multiple of four bytes makes the
    callback raise [ValueError].  The frame is taken off the queue all
    the same, and nothing else in the engine changes: the gate and the
    filters have not run. *)
Theorem callback_ragged_frame_raises
  (f32 : byte -> byte -> byte -> byte -> R) (self : AudioEngine) (frames : nat)
  (b : list byte) (rest : list item) :
  paused_flag self = false -> q self = Frame b :: rest ->
  (length b mod 4 <> 0)%nat ->
  _callback f32 self frames = mkCb (with_q self rest) (Raises ValueError) 0.
Proof.
  intros Hp Hq Hmod. unfold _callback. rewrite Hp, Hq. cbn [q_get].
  rewrite (@frombuffer_ragged f32 (length b / 4)); [reflexivity |].
  pose proof (Nat.div_mod_eq (length b) 4) as Hdm.
  pose proof (Nat.mod_upper_bound (length b) 4) as Hub. lia.
Qed.

Lemma callback_ragged_frame_raises_witness :
  after_init (fun self =>
    let f32 := fun _ _ _ _ : byte => 0 in
    let self0 := with_q (start self) [Frame [x00; x01; x02; x03; x04]; EndOfStream] in
    paused_flag self0 = false
    /\ _callback f32 self0 BLOCK = mkCb (with_q self0 [EndOfStream]) (Raises ValueError) 0).
Proof.
  apply after_init_intro. intros self Hc. cbn zeta.
  rewrite (start_as_constructed Hc).
  split; [reflexivity |].
  apply (@callback_ragged_frame_raises _ _ BLOCK [x00; x01; x02; x03; x04] [EndOfStream]);
    [reflexivity | reflexivity | cbn; lia].
Defined.

(** X15: while paused the callback runs on empty.  However many times
    the device calls it, each block is silence, nothing is taken off
    the queue and the engine is left exactly as it was, so that playback
    resumes where it stopped. *)
Theorem paused_callbacks_hold_the_stream
  (f32 : byte -> byte -> byte -> byte -> R) (self : AudioEngine) (frames n : nat) :
  paused_flag self = true ->
  callback_n f32 n self frames = (self, repeat (Returns (repeat 0 frames)) n).
Proof.
  intros Hp. induction n as [| n IH]; [reflexivity |].
  cbn [callback_n repeat]. rewrite (@callback_paused f32 self frames Hp).
  cbn [cb_outdata cb_self]. rewrite IH. reflexivity.
Qed.

Lemma paused_callbacks_hold_the_stream_witness :
  after_init (fun self =>
    let f32 := fun _ _ _ _ : byte => 0 in
    let self0 := pause (with_q (start self) [EndOfStream]) true in
    paused_flag self0 = true
    /\ callback_n f32 3 self0 BLOCK = (self0, repeat (Returns (repeat 0 BLOCK)) 3)).
Proof.
  apply after_init_intro. intros self Hc. cbn zeta.
  split; [reflexivity |].
  apply paused_callbacks_hold_the_stream. reflexivity.
Defined.

Lemma callback_keeps_paused_flag
  (f32 : byte -> byte -> byte -> byte -> R) (self : AudioEngine) (frames : nat) :
  paused_flag (cb_self (_callback f32 self frames)) = paused_flag self.
Proof.
  unfold _callback. destruct (paused_flag self) eqn:Hp; [exact Hp |].
  destruct (q self) as [| it rest]; cbn [q_get]; [exact Hp |].
  destruct it as [b | msg |]; try exact Hp.
  destruct (frombuffer f32 b) as [buf | e]; [| exact Hp].
  cbn [gate_enabled with_q].
  destruct (gate_enabled self).
  - rewrite gate_or_expander_state.
    destruct (eq_chain _ _) as [filters buf2]. exact Hp.
  - destruct (eq_chain _ _) as [filters buf2]. exact Hp.
Qed.

Lemma callback_playable
  (f32 : byte -> byte -> byte -> byte -> R) (self : AudioEngine) (frames : nat) :
  paused_flag self = false ->
  Forall (playable frames) (q self) ->
  exists out,
    cb_outdata (_callback f32 self frames) = Returns out
    /\ length out = frames
    /\ q (cb_self (_callback f32 self frames)) = drop 1 (q self).
Proof.
  intros Hp Hall. destruct (q self) as [| it rest] eqn:Hq.
  - rewrite (@callback_empty f32 self frames Hp Hq). cbn [cb_outdata cb_self].
    exists (repeat 0 frames). rewrite repeat_length. auto.
  - rewrite (@callback_pulls f32 self frames it rest Hp Hq).
    apply Forall_cons_1 in Hall. destruct Hall as [Hit _].
    destruct it as [b | msg |].
    + destruct (@callback_frame_returns f32 self frames b rest Hp Hq Hit) as (out & Ho & Hl).
      exists out. auto.
    + rewrite (@callback_sentinel f32 self frames (ErrorItem msg) rest Hp Hq)
        by (right; now exists msg).
      exists (repeat 0 frames). rewrite repeat_length. auto.
    + rewrite (@callback_sentinel f32 self frames EndOfStream rest Hp Hq) by now left.
      exists (repeat 0 frames). rewrite repeat_length. auto.
Qed.

(** X16: the callback consumes the queue in order, one item per call.
    On a stream that is not paused and whose queued items are sentinels
    or frames of [frames] samples, [n] invocations deliver [n] full
    blocks, none raises, and the queue is left without its first [n]
    items (empty once they run out, the further calls timing out). *)
Theorem callbacks_consume_in_order
  (f32 : byte -> byte -> byte -> byte -> R) (frames n : nat) (self : AudioEngine) :
  paused_flag self = false ->
  Forall (playable frames) (q self) ->
  q (fst (callback_n f32 n self frames)) = drop n (q self)
  /\ length (snd (callback_n f32 n self frames)) = n
  /\ Forall (fun o => exists out, o = Returns out /\ length out = frames)
       (snd (callback_n f32 n self frames)).
Proof.
  revert self. induction n as [| n IH]; intros self Hp Hall.
  - cbn. auto.
  - cbn [callback_n].
    destruct (@callback_playable f32 self frames Hp Hall) as (out & Ho & Hl & Hq).
    rewrite Ho.
    assert (Hp' : paused_flag (cb_self (_callback f32 self frames)) = false)
      by (rewrite callback_keeps_paused_flag; exact Hp).
    assert (Hall' : Forall (playable frames) (q (cb_self (_callback f32 self frames))))
      by (rewrite Hq; now apply Forall_drop).
    destruct (IH _ Hp' Hall') as (Hq' & Hlen & Houts).
    destruct (callback_n f32 n (cb_self (_callback f32 self frames)) frames)
      as [self' outs].
    cbn [fst snd length] in *. rewrite Hq', Hq, drop_drop.
    split; [reflexivity |]. split; [now rewrite Hlen |].
    constructor; [exists out; auto | exact Houts].
Qed.

Lemma callbacks_consume_in_order_witness :
  after_init (fun self =>
    let f32 := fun _ _ _ _ : byte => 0 in
    let self0 := with_q (start self) [EndOfStream; ErrorItem "x"; EndOfStream] in
    paused_flag self0 = false
    /\ q (fst (callback_n f32 2 self0 BLOCK)) = [EndOfStream]).
Proof.
  apply after_init_intro. intros self Hc. cbn zeta.
  rewrite (start_as_constructed Hc).
  split; [reflexivity |].
  refine (proj1 (@callbacks_consume_in_order _ BLOCK 2 _ _ _)); [reflexivity |].
  repeat (constructor; [exact I |]). constructor.
Defined.

Lemma same_coeffs_refl (biq : Biquad) : same_coeffs biq biq.
Proof. unfold same_coeffs. auto. Qed.

Lemma process_inplace_same_coeffs (biq : Biquad) (x : list R) :
  same_coeffs biq (fst (process_inplace biq x)).
Proof.
  unfold process_inplace. destruct (biquad_loop _ _ _ _ _ _ _ x) as [[t1 t2] ys].
  unfold same_coeffs. cbn. auto.
Qed.

Lemma eq_chain_same_coeffs (filters : list Biquad) :
  forall buf, Forall2 same_coeffs filters (fst (eq_chain filters buf)).
Proof.
  induction filters as [| biq rest IH]; intros buf; [constructor |].
  cbn [eq_chain].
  pose proof (process_inplace_same_coeffs biq buf) as Hb.
  destruct (process_inplace biq buf) as [biq' buf1].
  specialize (IH buf1). destruct (eq_chain rest buf1) as [rest' buf2].
  cbn [fst] in *. now constructor.
Qed.

Lemma same_params_refl (self : AudioEngine) : same_params self self.
Proof.
  unfold same_params. repeat (split; [reflexivity |]).
  split; [| auto 10].
  induction (eq_filters self); constructor; [apply same_coeffs_refl | assumption].
Qed.

Lemma same_params_with_q (self : AudioEngine) (qu : list item) :
  same_params self (with_q self qu).
Proof. apply (same_params_refl self). Qed.

(** X17: the callback never writes a control parameter.  Whatever is
    queued and whether it returns or raises, the engine it leaves has
    the flags, the master gain, the band settings, the coefficients of
    every filter, the gate parameters and the smoothing coefficients it
    found; only the queue, the running state of the filters and the
    state of the gate can differ. *)
Theorem callback_keeps_parameters
  (f32 : byte -> byte -> byte -> byte -> R) (self : AudioEngine) (frames : nat) :
  same_params self (cb_self (_callback f32 self frames))
  /\ length (eq_filters (cb_self (_callback f32 self frames))) = length (eq_filters self).
Proof.
  assert (Hgoal : same_params self (cb_self (_callback f32 self frames))).
  { destruct (paused_flag self) eqn:Hp.
    - rewrite (@callback_paused f32 self frames Hp). apply same_params_refl.
    - destruct (q self) as [| it rest] eqn:Hq.
      + rewrite (@callback_empty f32 self frames Hp Hq). apply same_params_refl.
      + destruct it as [b | msg |].
        * destruct (frombuffer f32 b) as [buf | e] eqn:Hb.
          -- rewrite (@callback_frame f32 self frames b rest buf Hp Hq Hb).
             cbn [cb_self].
             pose proof (eq_chain_same_coeffs (eq_filters self)
                           (snd (if gate_enabled self
                                 then _gate_or_expander (with_q self rest) buf
                                 else (with_q self rest, buf)))) as Hco.
             destruct (gate_enabled self) eqn:Hg.
             ++ rewrite gate_or_expander_state in Hco |- *. cbn [fst snd] in *.
                unfold same_params. cbn. rewrite Hg. auto 20.
             ++ cbn [fst snd] in *. unfold same_params. cbn. rewrite Hg. auto 20.
          -- unfold _callback. rewrite Hp, Hq. cbn [q_get]. rewrite Hb.
             cbn [cb_self]. apply same_params_with_q.
        * rewrite (@callback_sentinel f32 self frames (ErrorItem msg) rest Hp Hq)
            by (right; now exists msg).
          apply same_params_with_q.
        * rewrite (@callback_sentinel f32 self frames EndOfStream rest Hp Hq)
            by now left.
          apply same_params_with_q. }
  split; [exact Hgoal |].
  destruct Hgoal as (_ & _ & _ & _ & _ & Hf & _).
  symmetry. eapply Forall2_length. exact Hf.
Qed.

(** ** The decode producer: framing of the byte stream *)

Lemma split_frames_app (l1 l2 : list byte) :
  split_frames (l1 ++ l2)
  = (fst (split_frames l1) ++ fst (split_frames (snd (split_frames l1) ++ l2)),
     snd (split_frames (snd (split_frames l1) ++ l2))).
Proof.
  funelim (split_frames l1).
  - cbn [fst snd]. rewrite (split_frames_equation_1 (leftover ++ l2)).
    destruct (le_lt_dec (BLOCK * 4) (length (leftover ++ l2))) as [Hle | Hlt];
      [| exfalso; rewrite length_app in Hlt; lia].
    cbn [split_frames_unfold_clause_1].
    rewrite take_app_le, drop_app_le by lia.
    rewrite H. reflexivity.
  - cbn [fst snd app]. destruct (split_frames (leftover ++ l2)). reflexivity.
Qed.

Lemma reader_loop_frames_of_bytes (evs : list reader_event) :
  forall leftover,
    (length leftover < BLOCK * 4)%nat ->
    reader_loop evs leftover
    = map Frame (fst (split_frames (leftover ++ bytes_read evs))).
Proof.
  induction evs as [| ev evs IH]; intros leftover Hlo.
  - cbn [reader_loop bytes_read]. rewrite app_nil_r, split_frames_short by exact Hlo.
    reflexivity.
  - destruct ev as [| chunk |]; cbn [reader_loop bytes_read].
    + now apply IH.
    + destruct chunk as [| c chunk].
      * rewrite app_nil_r, split_frames_short by exact Hlo. reflexivity.
      * destruct (split_frames_concat (leftover ++ c :: chunk)) as [_ Hshort].
        rewrite (IH _ Hshort).
        rewrite (app_assoc leftover (c :: chunk) (bytes_read evs)).
        rewrite (split_frames_app (leftover ++ c :: chunk) (bytes_read evs)).
        cbn [fst]. now rewrite map_app.
    + rewrite app_nil_r, split_frames_short by exact Hlo. reflexivity.
Qed.

Lemma run_frames_of_bytes (evs : list reader_event) :
  run None evs = map Frame (fst (split_frames (bytes_read evs))) ++ [EndOfStream].
Proof.
  unfold run. rewrite reader_loop_frames_of_bytes.
  - reflexivity.
  - cbn [length]. pose proof BLOCK_pos. lia.
Qed.

(** X18: what the producer enqueues depends on the bytes decoded, not on
    how the pipe delivered them.  Two runs whose reads add up to the
    same byte stream, however the reads were split and however often
    the loop found the stream paused, put the same items into the
    queue. *)
Theorem producer_ignores_read_boundaries (evs evs' : list reader_event) :
  bytes_read evs = bytes_read evs' ->
  run None evs = run None evs'.
Proof.
  intros Hb. rewrite !run_frames_of_bytes, Hb. reflexivity.
Qed.

Lemma producer_ignores_read_boundaries_witness :
  bytes_read [Read [x01; x02]; Read [x03]] = bytes_read [Read [x01]; PausedTick; Read [x02; x03]; Read []; Read [x04]]
  /\ run None [Read [x01; x02]; Read [x03]]
     = run None [Read [x01]; PausedTick; Read [x02; x03]; Read []; Read [x04]].
Proof.
  assert (Hb : bytes_read [Read [x01; x02]; Read [x03]]
               = bytes_read [Read [x01]; PausedTick; Read [x02; x03]; Read []; Read [x04]])
    by reflexivity.
  split; [exact Hb |].
  exact (@producer_ignores_read_boundaries _ _ Hb).
Defined.

Lemma concat_full_length (sz : nat) (frames : list (list byte)) :
  Forall (fun frame => length frame = sz) frames ->
  length (concat frames) = (sz * length frames)%nat.
Proof.
  induction 1 as [| frame frames Hf _ IH]; cbn [concat length]; [lia |].
  rewrite length_app, IH, Hf. lia.
Qed.

(** X19: the producer slices the stream into whole frames and drops
    only a short tail.  When the decoder starts, [run] enqueues the
    consecutive [BLOCK * 4]-byte slices of the bytes read, in order and
    without gaps, then the end-of-stream marker and nothing after it;
    the bytes left out are the last ones, fewer than a frame, so the
    number of frames is the number of bytes divided by [BLOCK * 4]. *)
Theorem producer_slices_the_stream (evs : list reader_event) :
  exists frames tail,
    run None evs = map Frame frames ++ [EndOfStream]
    /\ Forall (fun frame => length frame = (BLOCK * 4)%nat) frames
    /\ concat frames ++ tail = bytes_read evs
    /\ (length tail < BLOCK * 4)%nat
    /\ length frames = (length (bytes_read evs) / (BLOCK * 4))%nat.
Proof.
  exists (fst (split_frames (bytes_read evs))), (snd (split_frames (bytes_read evs))).
  destruct (split_frames_concat (bytes_read evs)) as [Hcat Hshort].
  pose proof (split_frames_full (bytes_read evs)) as Hfull.
  split; [apply run_frames_of_bytes |]. split; [exact Hfull |].
  split; [exact Hcat |]. split; [exact Hshort |].
  apply Nat.div_unique with (r := length (snd (split_frames (bytes_read evs))));
    [exact Hshort |].
  rewrite <- (concat_full_length Hfull), <- length_app, Hcat. reflexivity.
Qed.

(** ** Lifecycle *)

Lemma stop_faulted (self : AudioEngine) (e : exn) (st : OutputStream) :
  stream self = Some st ->
  stop self (Some e) = (with_stream (with_stop_event self true) None, Raises e).
Proof. intros Hs. unfold stop. cbn [stream with_stop_event]. now rewrite Hs. Qed.

(** X20: a [stop] that fails can be repeated.  When closing the open
    stream raises, [stop] passes the exception on with the stream handle
    already dropped and the stop flag set, but with the queue not
    drained; a second [stop] then finds no stream, cannot fail, and
    drains the queue. *)
Theorem stop_after_a_failed_stop (self : AudioEngine) (e : exn) (fault : option exn) :
  stream self <> None ->
  snd (stop self (Some e)) = Raises e
  /\ q (fst (stop self (Some e))) = q self
  /\ stream (fst (stop self (Some e))) = None
  /\ stop_event (fst (stop self (Some e))) = true
  /\ stop (fst (stop self (Some e))) fault
     = (with_q (fst (stop self (Some e))) [], Returns tt).
Proof.
  intros Hs. destruct (stream self) as [st |] eqn:Hst; [| contradiction].
  rewrite (@stop_faulted self e st Hst). cbn [fst snd].
  repeat (split; [reflexivity |]).
  unfold stop. cbn [stream with_stream with_stop_event].
  destruct fault; reflexivity.
Qed.

Lemma stop_after_a_failed_stop_witness :
  after_init (fun self =>
    let self0 := with_q (start self) [EndOfStream] in
    stream self0 <> None
    /\ q (fst (stop self0 (Some ValueError))) = [EndOfStream]
    /\ q (fst (stop (fst (stop self0 (Some ValueError))) (Some ValueError))) = []).
Proof.
  apply after_init_intro. intros self Hc. cbn zeta.
  rewrite (start_as_constructed Hc).
  set (self0 := with_q _ _).
  assert (Hs : stream self0 <> None) by (cbn; discriminate).
  split; [exact Hs |].
  destruct (@stop_after_a_failed_stop self0 ValueError (Some ValueError) Hs)
    as (_ & Hq & _ & _ & Hagain).
  split; [exact Hq |]. rewrite Hagain. reflexivity.
Defined.



(** ** The batch filter chain *)

Lemma eq_entries_flat (fmt : nat -> R -> string) (freqs : list Z) :
  forall eq5,
    Forall (fun g => Rabs g < 0.01) eq5 ->
    eq_entries fmt (combine freqs eq5) = [].
Proof.
  induction freqs as [| f freqs IH]; intros eq5 Hflat; [reflexivity |].
  destruct Hflat as [| g eq5 Hg Hflat]; [reflexivity |].
  cbn [combine eq_entries].
  destruct (Rlt_dec (Rabs g) 0.01); [now apply IH | contradiction].
Qed.

(** X22: neutral settings give the bare downmix chain.  With every band
    gain within 0.01 dB of zero, the gate off and the volume within
    0.01 dB of zero, the filter string is the mono downmix, the resample
    and the return to stereo and nothing else, whatever the gate
    thresholds, floor and ratio are and however many band gains are
    given. *)
Theorem neutral_settings_give_bare_chain
  (fmt : nat -> R -> string) (vol_db : R) (eq5 : list R) (gate_mode : string)
  (open_thr close_thr floor_db ratio : R) :
  Rabs vol_db <= 0.01 ->
  Forall (fun g => Rabs g < 0.01) eq5 ->
  build_ffmpeg_filter_from_settings fmt vol_db eq5 false gate_mode
    open_thr close_thr floor_db ratio
  = ("[0:a]pan=mono|c0=0.5*c0+0.5*c1,aresample=48000,"
     +:+ "aformat=sample_fmts=fltp:channel_layouts=mono,"
     +:+ "pan=stereo|c0=c0|c1=c0[aout]")%string.
Proof.
  intros Hvol Hflat. unfold build_ffmpeg_filter_from_settings.
  rewrite eq_entries_flat by exact Hflat.
  destruct (Rlt_dec 0.01 (Rabs vol_db)); [lra |]. reflexivity.
Qed.

Lemma neutral_settings_give_bare_chain_witness :
  build_ffmpeg_filter_from_settings (fun _ _ => "?"%string) 0 [0; 0; 0; 0; 0] false "Gate"
    (-42) (-48) (-40) 4
  = ("[0:a]pan=mono|c0=0.5*c0+0.5*c1,aresample=48000,"
     +:+ "aformat=sample_fmts=fltp:channel_layouts=mono,"
     +:+ "pan=stereo|c0=c0|c1=c0[aout]")%string.
Proof.
  apply neutral_settings_give_bare_chain.
  - rewrite Rabs_R0. lra.
  - repeat (constructor; [rewrite Rabs_R0; lra |]). constructor.
Defined.

(** X23: the parameters of the batch gate are clamped.  The maximum
    attenuation handed to [agate] lies between 6 and 80 dB for every
    floor, and is the magnitude of the floor when that is in range; the
    expander gets the ratio of the settings raised to at least 1.1, and
    the gate always the ratio 2, whatever the settings say.  The filter
    string depends on the floor through that clamped range only, and
    not at all on the open threshold. *)
Theorem batch_gate_parameters_are_clamped (gate_mode : string) (floor_db ratio : R) :
  6 <= agate_range floor_db <= 80
  /\ (6 <= Rabs floor_db <= 80 -> agate_range floor_db = Rabs floor_db)
  /\ (gate_mode = "Expander"%string ->
      agate_mode gate_mode = 1%Z
      /\ 1.1 <= agate_ratio gate_mode ratio
      /\ (1.1 <= ratio -> agate_ratio gate_mode ratio = ratio))
  /\ (gate_mode <> "Expander"%string ->
      agate_mode gate_mode = 0%Z /\ agate_ratio gate_mode ratio = 2)
  /\ (forall (fmt : nat -> R -> string) vol_db eq5 gate_on open_thr open_thr'
             close_thr floor_db',
         agate_range floor_db = agate_range floor_db' ->
         build_ffmpeg_filter_from_settings fmt vol_db eq5 gate_on gate_mode
           open_thr close_thr floor_db ratio
         = build_ffmpeg_filter_from_settings fmt vol_db eq5 gate_on gate_mode
             open_thr' close_thr floor_db' ratio).
Proof.
  split; [| split; [| split; [| split]]];
    [| | | | intros fmt vol_db eq5 gate_on open_thr open_thr' close_thr floor_db' Hrng;
             unfold build_ffmpeg_filter_from_settings, agate_entry;
             rewrite Hrng; reflexivity];
    unfold agate_range, agate_ratio, agate_mode; repeat split.
  - apply Rmax_l.
  - apply Rmax_lub; [lra | apply Rmin_l].
  - intros [Hlo Hhi]. rewrite Rmin_right by exact Hhi. now apply Rmax_right.
  - subst gate_mode. reflexivity.
  - subst gate_mode. cbn. apply Rmax_l.
  - subst gate_mode. cbn. now apply Rmax_right.
  - destruct (String.eqb_spec gate_mode "Expander"); [contradiction | reflexivity].
  - destruct (String.eqb_spec gate_mode "Expander"); [contradiction | reflexivity].
Qed.

Lemma batch_gate_parameters_are_clamped_witness :
  agate_range (-3) = 6 /\ agate_range (-100) = 80 /\ agate_range (-40) = 40
  /\ agate_ratio "Expander" 1 = 1.1 /\ agate_ratio "Gate" 8 = 2.
Proof.
  destruct (batch_gate_parameters_are_clamped "Expander" (-40) 1)
    as (_ & H40 & Hexp & _).
  destruct (batch_gate_parameters_are_clamped "Gate" (-40) 8) as (_ & _ & _ & Hgate & _).
  assert (Habs40 : Rabs (-40) = 40) by (rewrite Rabs_left; lra).
  split; [unfold agate_range; rewrite Rabs_left by lra;
          rewrite Rmin_right by lra; apply Rmax_left; lra |].
  split; [unfold agate_range; rewrite Rabs_left by lra;
          rewrite Rmin_left by lra; apply Rmax_right; lra |].
  split; [rewrite H40; [exact Habs40 | rewrite Habs40; lra] |].
  split; [cbn; apply Rmax_left; lra |].
  apply Hgate. discriminate.
Defined.

(** ** Presets *)

Lemma name_is_named (name other : string) (state : gmap string pyval) :
  name_is other (<["name"%string := PStr name]> state) = String.eqb name other.
Proof. unfold name_is. now rewrite lookup_insert_eq. Qed.

Lemma name_is_two (name other : string) (p : gmap string pyval) :
  name_is name p = true -> name <> other -> name_is other p = false.
Proof.
  unfold name_is. destruct (p !! "name"%string) as [[r | b | s | l] |]; try discriminate.
  intros Hs Hne. apply String.eqb_eq in Hs. subst s. now apply String.eqb_neq.
Qed.

Lemma overwrite_preset_some (name : string) (state : gmap string pyval) :
  name_is name state = true ->
  forall presets presets',
    overwrite_preset presets name state = Some presets' ->
    List.find (name_is name) presets' = Some state
    /\ length presets' = length presets
    /\ forall other, name <> other ->
         List.find (name_is other) presets' = List.find (name_is other) presets.
Proof.
  intros Hst. induction presets as [| p rest IH]; intros presets' Hov; [discriminate |].
  cbn [overwrite_preset] in Hov.
  destruct (name_is name p) eqn:Hp.
  - injection Hov as <-. cbn [List.find length]. rewrite Hst.
    split; [reflexivity |]. split; [reflexivity |].
    intros other Hne.
    rewrite (name_is_two state Hst Hne), (name_is_two p Hp Hne). reflexivity.
  - destruct (overwrite_preset rest name state) as [rest' |] eqn:Hrest; [| discriminate].
    injection Hov as <-. destruct (IH rest' eq_refl) as (Hfind & Hlen & Hother).
    cbn [List.find length]. rewrite Hp.
    split; [exact Hfind |]. split; [now rewrite Hlen |].
    intros other Hne. now rewrite (Hother other Hne).
Qed.

Lemma overwrite_preset_none (name : string) (state : gmap string pyval) :
  forall presets,
    overwrite_preset presets name state = None ->
    List.find (name_is name) presets = None.
Proof.
  induction presets as [| p rest IH]; intros Hov; [reflexivity |].
  cbn [overwrite_preset] in Hov. cbn [List.find].
  destruct (name_is name p); [discriminate |].
  destruct (overwrite_preset rest name state); [discriminate |]. now apply IH.
Qed.

Lemma find_app_none {A : Type} (f : A -> bool) (l l' : list A) :
  List.find f l = None -> List.find f (l ++ l') = List.find f l'.
Proof.
  induction l as [| a l IH]; [reflexivity |]. cbn [List.find app].
  destruct (f a); [discriminate | exact IH].
Qed.


Lemma load_fold_other (preset : gmap string pyval) (key : string) (keys : list string) :
  ¬ In key keys ->
  forall data : gmap string pyval,
    fold_left (copy_key preset) keys data !! key
    = data !! key.
Proof.
  induction keys as [| k keys IH]; intros Hnot data; [reflexivity |].
  cbn [fold_left]. rewrite IH by (intros Hin; apply Hnot; now right).
  unfold copy_key. destruct (preset !! k); [| reflexivity].
  apply lookup_insert_ne. intros ->. apply Hnot. now left.
Qed.

Lemma load_fold_key (preset : gmap string pyval) (key : string) (keys : list string) :
  In key keys ->
  forall data : gmap string pyval,
    fold_left (copy_key preset) keys data !! key
    = match preset !! key with
      | Some v => Some v
      | None => data !! key
      end.
Proof.
  induction keys as [| k keys IH]; intros Hin data; [destruct Hin |].
  cbn [fold_left].
  destruct (in_dec string_dec key keys) as [Hrest | Hrest].
  - rewrite (IH Hrest). destruct (preset !! key) eqn:Hk; [reflexivity |].
    unfold copy_key. destruct (preset !! k) eqn:Hk'; [| reflexivity].
    apply lookup_insert_ne. intros ->. congruence.
  - destruct Hin as [-> | Hin]; [| contradiction].
    rewrite (@load_fold_other preset key keys Hrest). unfold copy_key.
    destruct (preset !! key); [apply lookup_insert_eq | reflexivity].
Qed.


Lemma saved_preset_found (presets : list (gmap string pyval)) (name : string)
  (state : gmap string pyval) :
  name <> ""%string ->
  List.find (name_is name) (on_save_preset presets name state)
  = Some (<["name"%string := PStr name]> state).
Proof.
  intros Hne. unfold on_save_preset.
  destruct (String.eqb_spec name "") as [-> | _]; [contradiction |].
  set (state' := <["name"%string := PStr name]> state).
  assert (Hst : name_is name state' = true)
    by (unfold state'; rewrite name_is_named; apply String.eqb_refl).
  destruct (overwrite_preset presets name state') as [presets' |] eqn:Hov.
  - now destruct (@overwrite_preset_some name state' Hst presets presets' Hov).
  - rewrite find_app_none by (now apply (@overwrite_preset_none name state')).
    cbn [List.find]. now rewrite Hst.
Qed.

Lemma name_not_a_preset_key : ¬ In "name"%string preset_keys.
Proof. cbn. intuition discriminate. Qed.

(** X24: a preset saved under a name is the one loaded under it.  For a
    name that is not empty, loading right after saving finds the preset
    whether the name was new or already taken, and copies into the
    settings exactly the entries of the saved state under the eight
    settings keys: such a key gets the saved value, or keeps its old one
    when the state lacks it, and every other key of the settings is
    untouched. *)
Theorem preset_saved_is_preset_loaded
  (data : gmap string pyval) (presets : list (gmap string pyval))
  (name : string) (state : gmap string pyval) :
  name <> ""%string ->
  exists data',
    on_load_preset data (on_save_preset presets name state) name = Some data'
    /\ (forall key,
           In key preset_keys ->
           data' !! key = match state !! key with
                          | Some v => Some v
                          | None => data !! key
                          end)
    /\ (forall key, ¬ In key preset_keys -> data' !! key = data !! key).
Proof.
  intros Hne. unfold on_load_preset.
  destruct (String.eqb_spec name "") as [-> | _]; [contradiction |].
  rewrite saved_preset_found by exact Hne.
  set (state' := <["name"%string := PStr name]> state).
  destruct (decide (state' = ∅)) as [Hempty | _].
  { exfalso. unfold state' in Hempty. now apply insert_non_empty in Hempty. }
  eexists. split; [reflexivity |]. split.
  - intros key Hin. rewrite (@load_fold_key state' key preset_keys Hin).
    unfold state'. rewrite lookup_insert_ne; [reflexivity |].
    intros <-. now apply name_not_a_preset_key.
  - intros key Hnot. now apply load_fold_other.
Qed.

Lemma preset_saved_is_preset_loaded_witness :
  exists data',
    on_load_preset (<["volume_db"%string := PFloat 0]> ∅)
      (on_save_preset [] "loud" (<["volume_db"%string := PFloat 6]> ∅)) "loud"
    = Some data'
    /\ data' !! "volume_db"%string = Some (PFloat 6).
Proof.
  destruct (@preset_saved_is_preset_loaded (<["volume_db"%string := PFloat 0]> ∅) []
              "loud" (<["volume_db"%string := PFloat 6]> ∅))
    as (data' & Hload & Hkeys & _); [discriminate |].
  exists data'. split; [exact Hload |].
  rewrite Hkeys by (cbn; auto). now rewrite lookup_insert_eq.
Defined.



Lemma filter_others_length (name : string) (presets : list (gmap string pyval)) :
  (length (List.filter (fun p => negb (name_is name p)) presets) <= length presets)%nat
  /\ (List.find (name_is name) presets = None ->
      List.filter (fun p => negb (name_is name p)) presets = presets)
  /\ (List.find (name_is name) presets <> None ->
      (length (List.filter (fun p => negb (name_is name p)) presets) < length presets)%nat).
Proof.
  induction presets as [| p rest (Hle & Hnone & Hsome)]; cbn [List.filter List.find length].
  - split; [lia |]. split; [reflexivity | intros H; contradiction].
  - destruct (name_is name p); cbn [negb length].
    + split; [lia |]. split; [discriminate | intros _; lia].
    + split; [lia |]. split.
      * intros H. now rewrite (Hnone H).
      * intros H. specialize (Hsome H). lia.
Qed.

Lemma filter_others_find (name other : string) (presets : list (gmap string pyval)) :
  List.find (name_is other) (List.filter (fun p => negb (name_is name p)) presets)
  = if String.eqb name other then None else List.find (name_is other) presets.
Proof.
  induction presets as [| p rest IH]; cbn [List.filter List.find].
  - now destruct (String.eqb name other).
  - destruct (name_is name p) eqn:Hp; cbn [negb].
    + rewrite IH. destruct (String.eqb_spec name other) as [-> | Hne]; [reflexivity |].
      now rewrite (name_is_two p Hp Hne).
    + cbn [List.find]. rewrite IH.
      destruct (String.eqb_spec name other) as [<- | Hne]; [now rewrite Hp |].
      reflexivity.
Qed.

(** X26: deleting a preset removes every preset of that name and no
    other.  For a name that is not empty: when no preset has the name,
    nothing is deleted and the list is kept; otherwise the list gets
    shorter, nothing is found under the name any more, so that loading
    it is refused, and what is found under any other name is what was
    found before. *)
Theorem preset_delete_removes_the_name
  (presets : list (gmap string pyval)) (name : string) :
  name <> ""%string ->
  (List.find (name_is name) presets = None -> on_delete_preset presets name = None)
  /\ (List.find (name_is name) presets <> None ->
      exists presets',
        on_delete_preset presets name = Some presets'
        /\ (length presets' < length presets)%nat
        /\ List.find (name_is name) presets' = None
        /\ (forall data, on_load_preset data presets' name = None)
        /\ forall other,
             name <> other ->
             List.find (name_is other) presets' = List.find (name_is other) presets).
Proof.
  intros Hne. unfold on_delete_preset.
  destruct (String.eqb_spec name "") as [-> | _]; [contradiction |].
  destruct (filter_others_length name presets) as (_ & Hnone & Hsome).
  split.
  - intros H. rewrite (Hnone H), Nat.eqb_refl. reflexivity.
  - intros H. specialize (Hsome H).
    destruct (Nat.eqb_spec
                (length (List.filter (fun p => negb (name_is name p)) presets))
                (length presets)) as [Heq | _]; [lia |].
    eexists. split; [reflexivity |]. split; [exact Hsome |].
    assert (Hgone : List.find (name_is name)
                      (List.filter (fun p => negb (name_is name p)) presets) = None)
      by (rewrite filter_others_find, String.eqb_refl; reflexivity).
    split; [exact Hgone |]. split.
    + intros data. unfold on_load_preset.
      destruct (String.eqb name ""); [reflexivity |]. now rewrite Hgone.
    + intros other Hno. rewrite filter_others_find.
      now destruct (String.eqb_spec name other).
Qed.

Lemma preset_delete_removes_the_name_witness :
  let loud := <["name"%string := PStr "loud"]> (∅ : gmap string pyval) in
  let quiet := <["name"%string := PStr "quiet"]> (∅ : gmap string pyval) in
  exists presets',
    on_delete_preset [loud; quiet; loud] "loud" = Some presets'
    /\ List.find (name_is "loud") presets' = None
    /\ List.find (name_is "quiet") presets' = Some quiet.
Proof.
  cbn zeta.
  set (loud := <["name"%string := PStr "loud"]> (∅ : gmap string pyval)).
  set (quiet := <["name"%string := PStr "quiet"]> (∅ : gmap string pyval)).
  assert (Hloud : name_is "loud" loud = true) by (unfold loud; now rewrite name_is_named).
  destruct (@preset_delete_removes_the_name [loud; quiet; loud] "loud") as [_ Hdel];
    [discriminate |].
  destruct Hdel as (presets' & Hd & _ & Hgone & _ & Hother).
  { cbn [List.find]. rewrite Hloud. discriminate. }
  exists presets'. split; [exact Hd |]. split; [exact Hgone |].
  rewrite (Hother "quiet"%string) by discriminate.
  cbn [List.find].
  replace (name_is "quiet" loud) with false
    by (unfold loud; now rewrite name_is_named).
  replace (name_is "quiet" quiet) with true
    by (unfold quiet; now rewrite name_is_named).
  reflexivity.
Defined.
